(** * The postgresql_extension resource handler

    A shallow embedding of [postgresql/resource_postgresql_extension.go]:
    the five lifecycle handlers (Create, Exists, Read, Update, Delete) and
    the two update sub-steps, written as state-passing functions over the
    resource data and the trace of what the handler did to the outside
    world (catalog lock, SQL sent to the driver, log lines). *)

From Stdlib Require Import String Ascii List Bool.
From stdpp Require Import base option strings list gmap.
Import ListNotations.

Local Open Scope string_scope.

(** ** Strings *)

(** The double quote character, and the one-character string holding it. *)
Definition dquote_char : ascii := ascii_of_nat 34.
Definition dquote : string := String dquote_char EmptyString.

(** The NUL character, at which [pq.QuoteIdentifier] cuts a name. *)
Definition nul_char : ascii := ascii_of_nat 0.

(** [name[:strings.IndexRune(name, 0)]], or [name] when it has no NUL. *)
Fixpoint truncate_nul (name : string) : string :=
  match name with
  | EmptyString => EmptyString
  | String c rest =>
      if Ascii.eqb c nul_char then EmptyString
      else String c (truncate_nul rest)
  end.

(** [strings.Replace] of every double quote of [name] by two. *)
Fixpoint double_dquotes (name : string) : string :=
  match name with
  | EmptyString => EmptyString
  | String c rest =>
      if Ascii.eqb c dquote_char
      then String dquote_char (String dquote_char (double_dquotes rest))
      else String c (double_dquotes rest)
  end.

(** Modelled from the spec: [pq.QuoteIdentifier] of package lib/pq, the
    single quoting routine doing standard double-quote identifier
    escaping: the name is cut at its first NUL, every double quote in it
    is doubled, and the result is put between double quotes. *)
Definition QuoteIdentifier (name : string) : string :=
  dquote +:+ double_dquotes (truncate_nul name) +:+ dquote.

(** ** Errors *)

(** Go [error] values as the handler makes and meets them. *)
Inductive error : Type :=
  | ErrNoRows                                  (* sql.ErrNoRows *)
  | DriverError (msg : string)                 (* any other driver failure *)
  | ErrorString (msg : string)                 (* errors.New, fmt.Errorf *)
  | Wrapf (format : string) (cause : error).   (* errwrap.Wrapf *)

(** [err == sql.ErrNoRows]: identity with the sentinel. *)
Definition is_ErrNoRows (e : error) : bool :=
  match e with
  | ErrNoRows => true
  | _ => false
  end.

(** ** The outside world *)

(** What a handler does that is visible outside it, in order. *)
Inductive Event : Type :=
  | EvLock                                         (* c.catalogLock.Lock() *)
  | EvUnlock                                       (* c.catalogLock.Unlock() *)
  | EvRLock                                        (* c.catalogLock.RLock() *)
  | EvRUnlock                                      (* c.catalogLock.RUnlock() *)
  | EvExec (sql : string)                          (* db.Exec(sql) *)
  | EvQueryRow (query : string) (args : list string) (* db.QueryRow(query, args...) *)
  | EvLog (msg : string).                          (* log.Printf *)

(** The row handed back by [QueryRow]: its columns, or the error that
    [Scan] will report ([sql.ErrNoRows] when nothing matched). *)
Inductive Row : Type :=
  | RowCols (cols : list string)
  | RowErr (e : error).

(** The database driver behind [c.DB()]. What it answers may depend on
    everything that happened before, so it is given the trace so far. *)
Record Driver : Type := {
  drvExec : list Event -> string -> option error;
  drvQueryRow : list Event -> string -> list string -> Row
}.

(** Features a server version may or may not have; only the extension
    feature is asked for here. *)
Inductive featureName : Type :=
  | featureExtension
  | featureOther (n : nat).

(** The provider's [Client]: detected version, capability test, driver. *)
Record Client : Type := {
  version : string;
  featureSupported : featureName -> bool;
  DB : Driver
}.

(** ** Resource data *)

Definition extNameAttr : string := "name".
Definition extSchemaAttr : string := "schema".
Definition extVersionAttr : string := "version".

(** Modelled from the spec: [schema.ResourceData] of the declarative-config
    engine, for string attributes: the identity, the attributes of the
    last-known state, the attributes after the planned change, and the
    attributes written by the handler. A missing attribute reads as the
    empty string. *)
Record ResourceData : Type := {
  rd_id : string;
  rd_state : gmap string string;
  rd_planned : gmap string string;
  rd_set : gmap string string
}.

(** [d.Id()] *)
Definition Id (d : ResourceData) : string := rd_id d.

(** [d.SetId(v)] *)
Definition SetId (v : string) (d : ResourceData) : ResourceData :=
  {| rd_id := v; rd_state := rd_state d;
     rd_planned := rd_planned d; rd_set := rd_set d |}.

(** [d.Get(key).(string)]: what the handler wrote, else the planned value. *)
Definition Get (key : string) (d : ResourceData) : string :=
  match rd_set d !! key with
  | Some v => v
  | None => default EmptyString (rd_planned d !! key)
  end.

(** [d.GetOk(key)]: the value, and whether it is set to a non-zero value. *)
Definition GetOk (key : string) (d : ResourceData) : string * bool :=
  let v := Get key d in (v, negb (String.eqb v EmptyString)).

(** [d.GetChange(key)]: the last-known and the planned value. *)
Definition GetChange (key : string) (d : ResourceData) : string * string :=
  (default EmptyString (rd_state d !! key),
   default EmptyString (rd_planned d !! key)).

(** [d.HasChange(key)] *)
Definition HasChange (key : string) (d : ResourceData) : bool :=
  let '(o, n) := GetChange key d in negb (String.eqb o n).

(** [d.Set(key, value)] *)
Definition Set_ (key value : string) (d : ResourceData) : ResourceData :=
  {| rd_id := rd_id d; rd_state := rd_state d;
     rd_planned := rd_planned d; rd_set := <[key := value]> (rd_set d) |}.

(** ** Handlers as state-passing programs *)

(** The state a handler runs in: the resource data it was handed (by
    pointer, so its writes are seen by the caller) and the trace so far. *)
Record World : Type := {
  w_d : ResourceData;
  w_trace : list Event
}.

Definition M (A : Type) : Type := World -> A * World.

Definition ret {A} (a : A) : M A := fun w => (a, w).

Definition bind {A B} (m : M A) (k : A -> M B) : M B :=
  fun w => let '(a, w1) := m w in k a w1.

Declare Scope handler_scope.
Delimit Scope handler_scope with handler.
Notation "x <- m ;; k" := (bind m (fun x => k))
  (at level 100, m at next level, right associativity) : handler_scope.
Notation "m ;;; k" := (bind m (fun _ => k))
  (at level 100, right associativity) : handler_scope.
Local Open Scope handler_scope.

(** The world once [e] has happened. *)
Definition record (e : Event) (w : World) : World :=
  {| w_d := w_d w; w_trace := w_trace w ++ [e] |}.

Definition emit (e : Event) : M unit :=
  fun w => (tt, record e w).

Definition read_d {A} (f : ResourceData -> A) : M A :=
  fun w => (f (w_d w), w).

(** The world with the resource data replaced. *)
Definition with_data (d : ResourceData) (w : World) : World :=
  {| w_d := d; w_trace := w_trace w |}.

Definition write_d (f : ResourceData -> ResourceData) : M unit :=
  fun w => (tt, with_data (f (w_d w)) w).

(** [db.Exec(sql)], keeping only the error. *)
Definition dbExec (db : Driver) (sql : string) : M (option error) :=
  fun w => (drvExec db (w_trace w) sql, record (EvExec sql) w).

(** [db.QueryRow(query, args...)] *)
Definition dbQueryRow (db : Driver) (query : string) (args : list string) : M Row :=
  fun w => (drvQueryRow db (w_trace w) query args,
            record (EvQueryRow query args) w).

(** [row.Scan(&a)]: the row's error if it has one, an error when the row
    does not have exactly one column, else the column. *)
Definition Scan1 (r : Row) : string * option error :=
  match r with
  | RowErr e => (EmptyString, Some e)
  | RowCols [a] => (a, None)
  | RowCols _ =>
      (EmptyString, Some (ErrorString "sql: wrong number of destination arguments in Scan"))
  end.

(** [row.Scan(&a, &b, &c)] *)
Definition Scan3 (r : Row) : (string * string * string) * option error :=
  match r with
  | RowErr e => ((EmptyString, EmptyString, EmptyString), Some e)
  | RowCols [a; b; c] => ((a, b, c), None)
  | RowCols _ =>
      ((EmptyString, EmptyString, EmptyString),
       Some (ErrorString "sql: wrong number of destination arguments in Scan"))
  end.

(** [c.catalogLock.Lock(); defer c.catalogLock.Unlock()] around the rest of
    the function: the deferred call runs when the function returns,
    whatever it returns. *)
Definition Lock_defer_Unlock {A} (body : M A) : M A :=
  emit EvLock ;;; (r <- body ;; emit EvUnlock ;;; ret r).

(** [c.catalogLock.RLock(); defer c.catalogLock.RUnlock()] *)
Definition RLock_defer_RUnlock {A} (body : M A) : M A :=
  emit EvRLock ;;; (r <- body ;; emit EvRUnlock ;;; ret r).

(** The error every handler returns when the server has no extensions. *)
Definition errNotSupported (c : Client) : error :=
  ErrorString
    ("postgresql_extension resource is not supported for this Postgres version ("
     +:+ version c +:+ ")").

Definition queryExists : string :=
  "SELECT extname FROM pg_catalog.pg_extension WHERE extname = $1".

Definition queryRead : string :=
  "SELECT e.extname, n.nspname, e.extversion " +:+
  "FROM pg_catalog.pg_extension e, pg_catalog.pg_namespace n " +:+
  "WHERE n.oid = e.extnamespace AND e.extname = $1".

Definition resourcePostgreSQLExtensionReadImpl (c : Client) : M (option error) :=
  extID <- read_d Id ;;
  row <- dbQueryRow (DB c) queryRead [extID] ;;
  let '((extName, extSchema, extVersion), err) := Scan3 row in
  match err with
  | Some e =>
      if is_ErrNoRows e then
        id' <- read_d Id ;;
        emit (EvLog ("[WARN] PostgreSQL extension (" +:+ id' +:+ ") not found")) ;;;
        write_d (SetId EmptyString) ;;;
        ret None
      else ret (Some (Wrapf "Error reading extension: {{err}}" e))
  | None =>
      write_d (Set_ extNameAttr extName) ;;;
      write_d (Set_ extSchemaAttr extSchema) ;;;
      write_d (Set_ extVersionAttr extVersion) ;;;
      write_d (SetId extName) ;;;
      ret None
  end.

Definition resourcePostgreSQLExtensionCreate (c : Client) : M (option error) :=
  if negb (featureSupported c featureExtension) then ret (Some (errNotSupported c))
  else Lock_defer_Unlock (
    extName <- read_d (Get extNameAttr) ;;
    let b := "CREATE EXTENSION IF NOT EXISTS " in
    let b := b +:+ QuoteIdentifier extName in
    vs <- read_d (GetOk extSchemaAttr) ;;
    let b := if snd vs then b +:+ " SCHEMA " +:+ QuoteIdentifier (fst vs) else b in
    vv <- read_d (GetOk extVersionAttr) ;;
    let b := if snd vv then b +:+ " VERSION " +:+ QuoteIdentifier (fst vv) else b in
    let sql := b in
    err <- dbExec (DB c) sql ;;
    match err with
    | Some e => ret (Some (Wrapf "Error creating extension: {{err}}" e))
    | None =>
        write_d (SetId extName) ;;;
        resourcePostgreSQLExtensionReadImpl c
    end).

Definition resourcePostgreSQLExtensionExists (c : Client) : M (bool * option error) :=
  if negb (featureSupported c featureExtension) then ret (false, Some (errNotSupported c))
  else Lock_defer_Unlock (
    id' <- read_d Id ;;
    row <- dbQueryRow (DB c) queryExists [id'] ;;
    let '(extensionName, err) := Scan1 row in
    match err with
    | Some e => if is_ErrNoRows e then ret (false, None) else ret (false, Some e)
    | None => ret (true, None)
    end).

Definition resourcePostgreSQLExtensionRead (c : Client) : M (option error) :=
  if negb (featureSupported c featureExtension) then ret (Some (errNotSupported c))
  else RLock_defer_RUnlock (resourcePostgreSQLExtensionReadImpl c).

Definition resourcePostgreSQLExtensionDelete (c : Client) : M (option error) :=
  if negb (featureSupported c featureExtension) then ret (Some (errNotSupported c))
  else Lock_defer_Unlock (
    extID <- read_d Id ;;
    let sql := "DROP EXTENSION " +:+ QuoteIdentifier extID in
    err <- dbExec (DB c) sql ;;
    match err with
    | Some e => ret (Some (Wrapf "Error deleting extension: {{err}}" e))
    | None => write_d (SetId EmptyString) ;;; ret None
    end).

Definition errEmptySchema : error :=
  ErrorString "Error setting extension name to an empty string".

Definition setExtSchema (db : Driver) : M (option error) :=
  changed <- read_d (HasChange extSchemaAttr) ;;
  if negb changed then ret None
  else
    extID <- read_d Id ;;
    on <- read_d (GetChange extSchemaAttr) ;;
    let n := snd on in
    if String.eqb n EmptyString then ret (Some errEmptySchema)
    else
      let sql := "ALTER EXTENSION " +:+ QuoteIdentifier extID
                 +:+ " SET SCHEMA " +:+ QuoteIdentifier n in
      err <- dbExec db sql ;;
      match err with
      | Some e => ret (Some (Wrapf "Error updating extension SCHEMA: {{err}}" e))
      | None => ret None
      end.

Definition setExtVersion (db : Driver) : M (option error) :=
  changed <- read_d (HasChange extVersionAttr) ;;
  if negb changed then ret None
  else
    extID <- read_d Id ;;
    let b := "ALTER EXTENSION " in
    let b := b +:+ QuoteIdentifier extID +:+ " UPDATE" in
    on <- read_d (GetChange extVersionAttr) ;;
    let n := snd on in
    let b := if negb (String.eqb n EmptyString)
             then b +:+ " TO " +:+ QuoteIdentifier n else b in
    let sql := b in
    err <- dbExec db sql ;;
    match err with
    | Some e => ret (Some (Wrapf "Error updating extension version: {{err}}" e))
    | None => ret None
    end.

Definition resourcePostgreSQLExtensionUpdate (c : Client) : M (option error) :=
  if negb (featureSupported c featureExtension) then ret (Some (errNotSupported c))
  else Lock_defer_Unlock (
    err <- setExtSchema (DB c) ;;
    match err with
    | Some e => ret (Some e)
    | None =>
        err <- setExtVersion (DB c) ;;
        match err with
        | Some e => ret (Some e)
        | None => resourcePostgreSQLExtensionReadImpl c
        end
    end).

(** ** The statements of the interface, written as the specification lists them *)

(** An optional clause: the keyword and the quoted identifier, or nothing. *)
Definition clause (keyword : string) (ident : option string) : string :=
  match ident with
  | Some i => keyword +:+ QuoteIdentifier i
  | None => EmptyString
  end.

(** Create: CREATE EXTENSION IF NOT EXISTS name [SCHEMA schema] [VERSION version] *)
Definition create_statement (name : string) (schema version : option string) : string :=
  "CREATE EXTENSION IF NOT EXISTS " +:+ QuoteIdentifier name
  +:+ clause " SCHEMA " schema +:+ clause " VERSION " version.

(** Relocate: ALTER EXTENSION name SET SCHEMA newSchema *)
Definition relocate_statement (name newSchema : string) : string :=
  "ALTER EXTENSION " +:+ QuoteIdentifier name
  +:+ " SET SCHEMA " +:+ QuoteIdentifier newSchema.

(** Reversion: ALTER EXTENSION name UPDATE [TO newVersion] *)
Definition reversion_statement (name : string) (newVersion : option string) : string :=
  "ALTER EXTENSION " +:+ QuoteIdentifier name +:+ " UPDATE"
  +:+ clause " TO " newVersion.

(** Drop: DROP EXTENSION name *)
Definition drop_statement (name : string) : string :=
  "DROP EXTENSION " +:+ QuoteIdentifier name.

(** An input that is present: set, and not to the empty string. *)
Definition present (key : string) (d : ResourceData) : option string :=
  let '(v, ok) := GetOk key d in if ok then Some v else None.

(** ** Reading a statement back, as the server's lexer does *)

(** The text after an opening double quote: the identifier up to the
    closing double quote, a doubled double quote standing for one, and
    what follows the closing one. [None] when the identifier is not closed. *)
Fixpoint scan_quoted_body (s : string) : option (string * string) :=
  match s with
  | EmptyString => None
  | String c rest =>
      if Ascii.eqb c dquote_char then
        match rest with
        | String c' rest' =>
            if Ascii.eqb c' dquote_char then
              match scan_quoted_body rest' with
              | Some (i, tl) => Some (String dquote_char i, tl)
              | None => None
              end
            else Some (EmptyString, rest)
        | EmptyString => Some (EmptyString, EmptyString)
        end
      else
        match scan_quoted_body rest with
        | Some (i, tl) => Some (String c i, tl)
        | None => None
        end
  end.

(** A quoted identifier at the head of [s]: the identifier and the rest. *)
Definition scan_quoted (s : string) : option (string * string) :=
  match s with
  | String c rest => if Ascii.eqb c dquote_char then scan_quoted_body rest else None
  | EmptyString => None
  end.

(** Whether text starts with a double quote. *)
Definition starts_quoted (s : string) : bool :=
  match s with
  | String c _ => Ascii.eqb c dquote_char
  | EmptyString => false
  end.

(** [s] without the prefix [p], when it starts with it. *)
Fixpoint strip_prefix (p s : string) : option string :=
  match p with
  | EmptyString => Some s
  | String a p' =>
      match s with
      | String b s' => if Ascii.eqb a b then strip_prefix p' s' else None
      | EmptyString => None
      end
  end.

(** An optional clause at the head of [s]. *)
Definition scan_clause (keyword s : string) : option (option string * string) :=
  match strip_prefix keyword s with
  | Some r =>
      match scan_quoted r with
      | Some (i, tl) => Some (Some i, tl)
      | None => None
      end
  | None => Some (None, s)
  end.

(** A whole creation statement: its name, schema clause and version clause. *)
Definition parse_create (sql : string) : option (string * option string * option string) :=
  match strip_prefix "CREATE EXTENSION IF NOT EXISTS " sql with
  | None => None
  | Some s1 =>
      match scan_quoted s1 with
      | None => None
      | Some (name, s2) =>
          match scan_clause " SCHEMA " s2 with
          | None => None
          | Some (schema, s3) =>
              match scan_clause " VERSION " s3 with
              | None => None
              | Some (version, s4) =>
                  if String.eqb s4 EmptyString then Some (name, schema, version)
                  else None
              end
          end
      end
  end.

(** ** What a statement is made of *)

(** A piece of statement text: fixed text of the handler, or an identifier
    that went through the quoting routine. *)
Inductive Fragment : Type :=
  | Keyword (text : string)
  | Quoted (ident : string).

Definition render_fragment (f : Fragment) : string :=
  match f with
  | Keyword text => text
  | Quoted ident => QuoteIdentifier ident
  end.

Fixpoint render (fs : list Fragment) : string :=
  match fs with
  | [] => EmptyString
  | f :: fs' => render_fragment f +:+ render fs'
  end.

(** The fixed texts of the handler's statements. *)
Definition statement_keywords : list string :=
  [ "CREATE EXTENSION IF NOT EXISTS "; " SCHEMA "; " VERSION ";
    "DROP EXTENSION "; "ALTER EXTENSION "; " SET SCHEMA "; " UPDATE"; " TO " ].

Definition fixed_text (f : Fragment) : Prop :=
  match f with
  | Keyword text => In text statement_keywords
  | Quoted _ => True
  end.

(** A statement in which caller-supplied text occurs only quoted. *)
Definition quoted_statement (sql : string) : Prop :=
  exists fs, sql = render fs /\ Forall fixed_text fs.

(** ** Classifying events *)

Definition is_exec (e : Event) : bool :=
  match e with EvExec _ => true | _ => false end.

Definition is_sql (e : Event) : bool :=
  match e with EvExec _ | EvQueryRow _ _ => true | _ => false end.

Definition is_lock_event (e : Event) : bool :=
  match e with EvLock | EvUnlock | EvRLock | EvRUnlock => true | _ => false end.

(** The events a handler run adds to the trace. *)
Definition emits {A} (m : M A) (w : World) (evs : list Event) : Prop :=
  w_trace (snd (m w)) = (w_trace w ++ evs)%list.

(** The caller's resource data with one attribute left out altogether. *)
Definition without_attr (key : string) (d : ResourceData) : ResourceData :=
  {| rd_id := rd_id d; rd_state := rd_state d;
     rd_planned := delete key (rd_planned d); rd_set := delete key (rd_set d) |}.

(** Every event a program adds to the trace, from any world, satisfies [P]. *)
Definition only (P : Event -> Prop) {A} (m : M A) : Prop :=
  forall w, exists evs, emits m w evs /\ Forall P evs.

(** SQL that carries caller-supplied text either quoted inside a statement,
    or not at all: the two queries are fixed text with a bound parameter. *)
Definition injection_free (e : Event) : Prop :=
  match e with
  | EvExec sql => quoted_statement sql
  | EvQueryRow query _ => query = queryExists \/ query = queryRead
  | _ => True
  end.

Definition not_lock (e : Event) : Prop := is_lock_event e = false.

Definition not_exec (e : Event) : Prop := is_exec e = false.

(** The statements of the interface for the resource data [d]: the four
    statement forms, holding the name (or identity), schema and version of
    [d] and no other text of the caller. *)
Definition interface_statement (d : ResourceData) (sql : string) : Prop :=
  sql = create_statement (Get extNameAttr d) (present extSchemaAttr d)
          (present extVersionAttr d)
  \/ sql = relocate_statement (Id d) (snd (GetChange extSchemaAttr d))
  \/ sql = reversion_statement (Id d)
             (let n := snd (GetChange extVersionAttr d) in
              if String.eqb n EmptyString then None else Some n)
  \/ sql = drop_statement (Id d).

(** An event that, if it sends a statement to execute, sends one of the
    interface for [d]. *)
Definition executes_for (d : ResourceData) (e : Event) : Prop :=
  match e with
  | EvExec sql => interface_statement d sql
  | _ => True
  end.

(** The no-op update property as the specification words it: with no
    field reporting a change, Update issues zero SQL statements and
    succeeds. *)
Definition update_is_silent (c : Client) (w : World) : Prop :=
  HasChange extSchemaAttr (w_d w) = false ->
  HasChange extVersionAttr (w_d w) = false ->
  (forall evs, emits (resourcePostgreSQLExtensionUpdate c) w evs ->
               filter (fun e => is_sql e = true) evs = [])
  /\ fst (resourcePostgreSQLExtensionUpdate c w) = None.

(** ** Example servers and resource data *)

Module Examples.

(** A server that accepts every statement and finds the extension, in
    schema public at version 1.0, under the name asked for. *)
Definition found (query : string) (args : list string) : Row :=
  if String.eqb query queryExists then RowCols args
  else RowCols (args ++ ["public"; "1.0"]).

Definition healthy : Driver :=
  {| drvExec := fun _ _ => None; drvQueryRow := fun _ => found |}.

(** A server on which the extension is not installed. *)
Definition bare : Driver :=
  {| drvExec := fun _ _ => None;
     drvQueryRow := fun _ _ _ => RowErr ErrNoRows |}.

(** A server that refuses everything. *)
Definition refusing : Driver :=
  {| drvExec := fun _ _ => Some (DriverError "permission denied");
     drvQueryRow := fun _ _ _ => RowErr (DriverError "permission denied") |}.

(** A server that accepts the first statement sent under the lock and
    refuses every later one. *)
Definition one_shot : Driver :=
  {| drvExec := fun trace _ =>
       match trace with
       | [EvLock] => None
       | _ => Some (DriverError "no update path")
       end;
     drvQueryRow := fun _ => found |}.

Definition server (db : Driver) : Client :=
  {| version := "9.6.0"; featureSupported := fun _ => true; DB := db |}.

(** A server older than extensions. *)
Definition old_server : Client :=
  {| version := "9.0.0"; featureSupported := fun _ => false; DB := healthy |}.

Definition attrs (name schema version : string) : gmap string string :=
  <[extNameAttr := name]> (<[extSchemaAttr := schema]> (<[extVersionAttr := version]> ∅)).

Definition data (id' : string) (state planned : gmap string string) : World :=
  {| w_d := {| rd_id := id'; rd_state := state; rd_planned := planned; rd_set := ∅ |};
     w_trace := [] |}.

(** hstore is to be created in schema app, at the default version. *)
Definition to_create : World :=
  data EmptyString ∅ (attrs "hstore" "app" EmptyString).

(** hstore is to move from public to app and from 1.0 to 1.1. *)
Definition to_move_and_upgrade : World :=
  data "hstore" (attrs "hstore" "public" "1.0") (attrs "hstore" "app" "1.1").

(** Nothing is to change. *)
Definition unchanged : World :=
  data "hstore" (attrs "hstore" "public" "1.0") (attrs "hstore" "public" "1.0").

(** The schema is to become the empty string. *)
Definition to_empty_schema : World :=
  data "hstore" (attrs "hstore" "public" "1.0") (attrs "hstore" EmptyString "1.0").

(** The version is to become the empty string. *)
Definition to_empty_version : World :=
  data "hstore" (attrs "hstore" "public" "1.0") (attrs "hstore" "public" EmptyString).

End Examples.

(** ** The resource descriptor *)

(** Modelled from the spec: the declarations of the declarative-config
    engine's package [schema] that the descriptor is written with: the
    attribute types, an attribute's schema, the importer and the resource
    with its lifecycle hooks. A field left out in the source has Go's zero
    value. *)
Module schema.

Inductive ValueType : Type :=
  | TypeBool | TypeInt | TypeFloat | TypeString | TypeList | TypeMap | TypeSet.

Record Schema : Type := {
  Type_ : ValueType;
  Required : bool;
  Optional : bool;
  Computed : bool;
  ForceNew : bool;
  Description : string
}.

Inductive StateFunc : Type :=
  | ImportStatePassthrough.

Record ResourceImporter : Type := {
  State : StateFunc
}.

Record Resource : Type := {
  Create : Client -> M (option error);
  Read : Client -> M (option error);
  Update : Client -> M (option error);
  Delete : Client -> M (option error);
  Exists : Client -> M (bool * option error);
  Importer : ResourceImporter;
  Schema_ : gmap string Schema
}.

End schema.

Definition resourcePostgreSQLExtension : schema.Resource :=
  {| schema.Create := resourcePostgreSQLExtensionCreate;
     schema.Read := resourcePostgreSQLExtensionRead;
     schema.Update := resourcePostgreSQLExtensionUpdate;
     schema.Delete := resourcePostgreSQLExtensionDelete;
     schema.Exists := resourcePostgreSQLExtensionExists;
     schema.Importer := {| schema.State := schema.ImportStatePassthrough |};
     schema.Schema_ :=
       <[extNameAttr :=
           {| schema.Type_ := schema.TypeString;
              schema.Required := true;
              schema.Optional := false;
              schema.Computed := false;
              schema.ForceNew := true;
              schema.Description := EmptyString |}]>
       (<[extSchemaAttr :=
           {| schema.Type_ := schema.TypeString;
              schema.Required := false;
              schema.Optional := true;
              schema.Computed := true;
              schema.ForceNew := false;
              schema.Description := "Sets the schema of an extension" |}]>
       (<[extVersionAttr :=
           {| schema.Type_ := schema.TypeString;
              schema.Required := false;
              schema.Optional := true;
              schema.Computed := true;
              schema.ForceNew := false;
              schema.Description := "Sets the version number of the extension" |}]>
        ∅)) |}.

(** The resource data with the last-known and the planned value of one
    attribute replaced. *)
Definition with_attr (key old new : string) (d : ResourceData) : ResourceData :=
  {| rd_id := rd_id d;
     rd_state := <[key := old]> (rd_state d);
     rd_planned := <[key := new]> (rd_planned d);
     rd_set := rd_set d |}.

(** ** Reading the other statements back *)

(** The two ALTER EXTENSION forms of the interface. *)
Inductive AlterExtension : Type :=
  | SetSchema (name newSchema : string)
  | UpdateTo (name : string) (newVersion : option string).

Definition parse_alter (sql : string) : option AlterExtension :=
  match strip_prefix "ALTER EXTENSION " sql with
  | None => None
  | Some s1 =>
      match scan_quoted s1 with
      | None => None
      | Some (name, s2) =>
          match strip_prefix " SET SCHEMA " s2 with
          | Some s3 =>
              match scan_quoted s3 with
              | Some (newSchema, s4) =>
                  if String.eqb s4 EmptyString then Some (SetSchema name newSchema)
                  else None
              | None => None
              end
          | None =>
              match strip_prefix " UPDATE" s2 with
              | Some s3 =>
                  match scan_clause " TO " s3 with
                  | Some (newVersion, s4) =>
                      if String.eqb s4 EmptyString then Some (UpdateTo name newVersion)
                      else None
                  | None => None
                  end
              | None => None
              end
          end
      end
  end.

Definition parse_drop (sql : string) : option string :=
  match strip_prefix "DROP EXTENSION " sql with
  | None => None
  | Some s1 =>
      match scan_quoted s1 with
      | Some (name, s2) => if String.eqb s2 EmptyString then Some name else None
      | None => None
      end
  end.


(** The planned version as the upgrade statement takes it. *)
Definition planned_version (d : ResourceData) : option string :=
  let n := snd (GetChange extVersionAttr d) in
  if String.eqb n EmptyString then None else Some n.

(** The error kinds a handler can hand back, by the text that wraps the
    driver's error. *)
Definition wrapped (format : string) (err : error) : Prop :=
  exists cause, err = Wrapf format cause.


(** An event that, if it sends a statement to execute, sends an ALTER
    EXTENSION that reads back as the relocation or the upgrade planned in
    [d] for the identity of [d]. *)
Definition alters_for (d : ResourceData) (e : Event) : Prop :=
  match e with
  | EvExec sql =>
      parse_alter sql
      = Some (SetSchema (truncate_nul (Id d))
                (truncate_nul (snd (GetChange extSchemaAttr d))))
      \/ parse_alter sql
         = Some (UpdateTo (truncate_nul (Id d)) (truncate_nul <$> planned_version d))
  | _ => True
  end.

(** An event that, if it sends a statement to execute, sends a DROP
    EXTENSION that reads back as the drop of the identity of [d]. *)
Definition drops_for (d : ResourceData) (e : Event) : Prop :=
  match e with
  | EvExec sql => parse_drop sql = Some (truncate_nul (Id d))
  | _ => True
  end.

(** Neither SQL nor the lock. *)
Definition quiet (e : Event) : Prop := is_sql e = false /\ is_lock_event e = false.

(** ** More example servers and resource data *)

Module MoreExamples.

(** A server that takes every statement and then cannot be queried. *)
Definition unreadable : Driver :=
  {| drvExec := fun _ _ => None;
     drvQueryRow := fun _ _ _ => RowErr (DriverError "connection lost") |}.

(** A server that refuses every statement and answers every query. *)
Definition read_only : Driver :=
  {| drvExec := fun _ _ => Some (DriverError "read-only transaction");
     drvQueryRow := fun _ => Examples.found |}.

(** Only the schema of hstore is to change, from public to app. *)
Definition to_move : World :=
  Examples.data "hstore" (Examples.attrs "hstore" "public" "1.0")
    (Examples.attrs "hstore" "app" "1.0").

End MoreExamples.


(** * Properties *)

(** ** Strings and quoting *)

Section Strings.

Lemma append_cons (c : ascii) (s t : string) :
  String c s +:+ t = String c (s +:+ t).
Proof. reflexivity. Qed.

Lemma append_empty_l (s : string) : EmptyString +:+ s = s.
Proof. reflexivity. Qed.

Lemma append_empty_r (s : string) : s +:+ EmptyString = s.
Proof.
  induction s as [|c s IH]; [reflexivity|].
  rewrite append_cons, IH. reflexivity.
Qed.

Lemma append_assoc (s t u : string) : (s +:+ t) +:+ u = s +:+ (t +:+ u).
Proof.
  induction s as [|c s IH]; [reflexivity|].
  rewrite !append_cons, IH. reflexivity.
Qed.

Lemma strip_prefix_append (p s : string) : strip_prefix p (p +:+ s) = Some s.
Proof.
  induction p as [|a p IH]; [reflexivity|].
  rewrite append_cons. cbn [strip_prefix].
  rewrite Ascii.eqb_refl. exact IH.
Qed.

(** The lexer undoes the doubling: behind the escaped name, one double
    quote closes the identifier when the text goes on with something else. *)
Lemma scan_quoted_body_doubled (name rest : string) :
  starts_quoted rest = false ->
  scan_quoted_body (double_dquotes name +:+ dquote +:+ rest) = Some (name, rest).
Proof.
  intros Hrest. induction name as [|c name IH].
  - change (double_dquotes EmptyString +:+ dquote +:+ rest)
      with (String dquote_char rest).
    cbn [scan_quoted_body]. rewrite Ascii.eqb_refl.
    destruct rest as [|c' rest']; [reflexivity|].
    cbn [starts_quoted] in Hrest. rewrite Hrest. reflexivity.
  - cbn [double_dquotes]. destruct (Ascii.eqb c dquote_char) eqn:Hc.
    + apply Ascii.eqb_eq in Hc. subst c.
      rewrite !append_cons. cbn [scan_quoted_body].
      rewrite Ascii.eqb_refl, IH. reflexivity.
    + rewrite append_cons. cbn [scan_quoted_body].
      rewrite Hc, IH. reflexivity.
Qed.

Lemma scan_quoted_QuoteIdentifier (name rest : string) :
  starts_quoted rest = false ->
  scan_quoted (QuoteIdentifier name +:+ rest) = Some (truncate_nul name, rest).
Proof.
  intros Hrest. unfold QuoteIdentifier.
  rewrite !append_assoc.
  change (dquote +:+ ?s) with (String dquote_char s).
  cbn [scan_quoted]. rewrite Ascii.eqb_refl.
  apply scan_quoted_body_doubled, Hrest.
Qed.

Lemma starts_quoted_clause (keyword : string) (ident : option string) (rest : string) :
  starts_quoted keyword = false ->
  keyword <> EmptyString ->
  starts_quoted rest = false ->
  starts_quoted (clause keyword ident +:+ rest) = false.
Proof.
  intros Hk Hne Hrest. destruct ident as [i|]; [|exact Hrest].
  unfold clause. destruct keyword as [|c k]; [congruence|].
  rewrite !append_cons. exact Hk.
Qed.

Lemma scan_clause_present (keyword i rest : string) :
  starts_quoted rest = false ->
  scan_clause keyword (clause keyword (Some i) +:+ rest)
  = Some (Some (truncate_nul i), rest).
Proof.
  intros Hrest. unfold scan_clause, clause.
  rewrite append_assoc, strip_prefix_append.
  rewrite scan_quoted_QuoteIdentifier by exact Hrest. reflexivity.
Qed.

Lemma scan_clause_absent (keyword rest : string) :
  strip_prefix keyword rest = None ->
  scan_clause keyword (clause keyword None +:+ rest) = Some (None, rest).
Proof.
  intros Hno. unfold scan_clause, clause.
  rewrite append_empty_l, Hno. reflexivity.
Qed.

Lemma scan_clause_clause (keyword : string) (ident : option string) (rest : string) :
  starts_quoted rest = false ->
  strip_prefix keyword rest = None ->
  scan_clause keyword (clause keyword ident +:+ rest)
  = Some (truncate_nul <$> ident, rest).
Proof.
  intros Hq Hno. destruct ident as [i|].
  - apply scan_clause_present, Hq.
  - apply scan_clause_absent, Hno.
Qed.

(** Reading a creation statement back gives one statement with the
    identifiers that were put in, whatever characters they hold. *)
Lemma parse_create_statement (name : string) (schema version : option string) :
  parse_create (create_statement name schema version)
  = Some (truncate_nul name, truncate_nul <$> schema, truncate_nul <$> version).
Proof.
  unfold parse_create, create_statement.
  rewrite strip_prefix_append.
  rewrite scan_quoted_QuoteIdentifier.
  2:{ apply starts_quoted_clause; [reflexivity|discriminate|].
      rewrite <- (append_empty_r (clause " VERSION " version)).
      apply starts_quoted_clause; [reflexivity|discriminate|reflexivity]. }
  rewrite scan_clause_clause.
  - rewrite <- (append_empty_r (clause " VERSION " version)).
    rewrite scan_clause_clause by reflexivity. reflexivity.
  - rewrite <- (append_empty_r (clause " VERSION " version)).
    apply starts_quoted_clause; [reflexivity|discriminate|reflexivity].
  - destruct version as [v|]; reflexivity.
Qed.

End Strings.

(** ** Running the handlers *)

Section Runs.

Context {A : Type}.

Lemma Lock_defer_Unlock_run (body : M A) (w : World) :
  Lock_defer_Unlock body w
  = (fst (body (record EvLock w)), record EvUnlock (snd (body (record EvLock w)))).
Proof.
  unfold Lock_defer_Unlock, bind, emit, ret.
  destruct (body (record EvLock w)); reflexivity.
Qed.

Lemma RLock_defer_RUnlock_run (body : M A) (w : World) :
  RLock_defer_RUnlock body w
  = (fst (body (record EvRLock w)), record EvRUnlock (snd (body (record EvRLock w)))).
Proof.
  unfold RLock_defer_RUnlock, bind, emit, ret.
  destruct (body (record EvRLock w)); reflexivity.
Qed.

End Runs.

Lemma is_ErrNoRows_true (e : error) : is_ErrNoRows e = true <-> e = ErrNoRows.
Proof. destruct e; cbn; split; congruence. Qed.

(** The finishing read, case by case on what the driver answers. *)
Lemma ReadImpl_run (c : Client) (w : World) :
  let q := EvQueryRow queryRead [Id (w_d w)] in
  resourcePostgreSQLExtensionReadImpl c w
  = match Scan3 (drvQueryRow (DB c) (w_trace w) queryRead [Id (w_d w)]) with
    | (_, Some e) =>
        if is_ErrNoRows e then
          (None,
           with_data (SetId EmptyString (w_d w))
             (record (EvLog ("[WARN] PostgreSQL extension (" +:+ Id (w_d w) +:+ ") not found"))
                (record q w)))
        else (Some (Wrapf "Error reading extension: {{err}}" e), record q w)
    | ((extName, extSchema, extVersion), None) =>
        (None,
         with_data
           (SetId extName
              (Set_ extVersionAttr extVersion
                 (Set_ extSchemaAttr extSchema (Set_ extNameAttr extName (w_d w)))))
           (record q w))
    end.
Proof.
  unfold resourcePostgreSQLExtensionReadImpl, bind, read_d, dbQueryRow.
  destruct (Scan3 _) as [[[a b] v] [e|]]; [destruct (is_ErrNoRows e)|]; reflexivity.
Qed.

Lemma setExtSchema_run (db : Driver) (w : World) :
  let n := snd (GetChange extSchemaAttr (w_d w)) in
  let sql := relocate_statement (Id (w_d w)) n in
  setExtSchema db w
  = if negb (HasChange extSchemaAttr (w_d w)) then (None, w)
    else if String.eqb n EmptyString then (Some errEmptySchema, w)
    else (Wrapf "Error updating extension SCHEMA: {{err}}" <$> drvExec db (w_trace w) sql,
          record (EvExec sql) w).
Proof.
  unfold setExtSchema, bind, read_d, dbExec, relocate_statement.
  destruct (negb _); [reflexivity|].
  destruct (String.eqb _ _); [reflexivity|].
  destruct (drvExec _ _ _); reflexivity.
Qed.

Lemma reversion_code_text (id' n : string) :
  (if negb (String.eqb n EmptyString)
   then ("ALTER EXTENSION " +:+ QuoteIdentifier id' +:+ " UPDATE") +:+ " TO " +:+ QuoteIdentifier n
   else "ALTER EXTENSION " +:+ QuoteIdentifier id' +:+ " UPDATE")
  = reversion_statement id' (if String.eqb n EmptyString then None else Some n).
Proof.
  unfold reversion_statement, clause.
  destruct (String.eqb n EmptyString); cbn [negb].
  - rewrite append_empty_r. reflexivity.
  - rewrite !append_assoc. reflexivity.
Qed.

Lemma setExtVersion_run (db : Driver) (w : World) :
  let n := snd (GetChange extVersionAttr (w_d w)) in
  let sql := reversion_statement (Id (w_d w))
               (if String.eqb n EmptyString then None else Some n) in
  setExtVersion db w
  = if negb (HasChange extVersionAttr (w_d w)) then (None, w)
    else (Wrapf "Error updating extension version: {{err}}" <$> drvExec db (w_trace w) sql,
          record (EvExec sql) w).
Proof.
  cbv zeta. rewrite <- reversion_code_text.
  unfold setExtVersion, bind, read_d, dbExec.
  destruct (negb (HasChange _ _)); [reflexivity|].
  destruct (drvExec _ _ _); reflexivity.
Qed.

Lemma create_code_text (name : string) (vs vv : string * bool) :
  (let b := "CREATE EXTENSION IF NOT EXISTS " in
   let b := b +:+ QuoteIdentifier name in
   let b := if snd vs then b +:+ " SCHEMA " +:+ QuoteIdentifier (fst vs) else b in
   let b := if snd vv then b +:+ " VERSION " +:+ QuoteIdentifier (fst vv) else b in
   b)
  = create_statement name
      (if snd vs then Some (fst vs) else None)
      (if snd vv then Some (fst vv) else None).
Proof.
  unfold create_statement, clause. cbv zeta.
  destruct (snd vs), (snd vv);
    rewrite ?append_assoc, ?append_empty_r, ?append_empty_l; reflexivity.
Qed.

Lemma present_GetOk (key : string) (d : ResourceData) :
  (if snd (GetOk key d) then Some (fst (GetOk key d)) else None) = present key d.
Proof. unfold present. destruct (GetOk key d) as [v []]; reflexivity. Qed.

Lemma Create_run (c : Client) (w : World) :
  featureSupported c featureExtension = true ->
  let name := Get extNameAttr (w_d w) in
  let sql := create_statement name (present extSchemaAttr (w_d w))
               (present extVersionAttr (w_d w)) in
  let w1 := record (EvExec sql) (record EvLock w) in
  resourcePostgreSQLExtensionCreate c w
  = match drvExec (DB c) (w_trace (record EvLock w)) sql with
    | Some e => (Some (Wrapf "Error creating extension: {{err}}" e), record EvUnlock w1)
    | None =>
        let rw := resourcePostgreSQLExtensionReadImpl c (with_data (SetId name (w_d w)) w1) in
        (fst rw, record EvUnlock (snd rw))
    end.
Proof.
  intros Hsup. cbv zeta.
  unfold resourcePostgreSQLExtensionCreate. rewrite Hsup. cbn [negb].
  rewrite Lock_defer_Unlock_run.
  rewrite <- !present_GetOk, <- create_code_text.
  unfold bind, read_d, dbExec, write_d. cbv zeta.
  destruct (drvExec _ _ _); reflexivity.
Qed.

Lemma Read_run (c : Client) (w : World) :
  featureSupported c featureExtension = true ->
  let rw := resourcePostgreSQLExtensionReadImpl c (record EvRLock w) in
  resourcePostgreSQLExtensionRead c w = (fst rw, record EvRUnlock (snd rw)).
Proof.
  intros Hsup. unfold resourcePostgreSQLExtensionRead.
  rewrite Hsup. cbn [negb]. apply RLock_defer_RUnlock_run.
Qed.

Lemma Exists_run (c : Client) (w : World) :
  featureSupported c featureExtension = true ->
  let q := EvQueryRow queryExists [Id (w_d w)] in
  let w1 := record EvUnlock (record q (record EvLock w)) in
  resourcePostgreSQLExtensionExists c w
  = match Scan1 (drvQueryRow (DB c) (w_trace (record EvLock w)) queryExists [Id (w_d w)]) with
    | (_, Some e) => if is_ErrNoRows e then ((false, None), w1) else ((false, Some e), w1)
    | (_, None) => ((true, None), w1)
    end.
Proof.
  intros Hsup. cbv zeta.
  unfold resourcePostgreSQLExtensionExists. rewrite Hsup. cbn [negb].
  rewrite Lock_defer_Unlock_run.
  unfold bind, read_d, dbQueryRow.
  destruct (Scan1 _) as [a [e|]]; [destruct (is_ErrNoRows e)|]; reflexivity.
Qed.

Lemma Delete_run (c : Client) (w : World) :
  featureSupported c featureExtension = true ->
  let sql := drop_statement (Id (w_d w)) in
  let w1 := record (EvExec sql) (record EvLock w) in
  resourcePostgreSQLExtensionDelete c w
  = match drvExec (DB c) (w_trace (record EvLock w)) sql with
    | Some e => (Some (Wrapf "Error deleting extension: {{err}}" e), record EvUnlock w1)
    | None => (None, record EvUnlock (with_data (SetId EmptyString (w_d w)) w1))
    end.
Proof.
  intros Hsup. cbv zeta.
  unfold resourcePostgreSQLExtensionDelete. rewrite Hsup. cbn [negb].
  rewrite Lock_defer_Unlock_run.
  unfold bind, read_d, dbExec, write_d, drop_statement.
  destruct (drvExec _ _ _); reflexivity.
Qed.

Lemma Update_run (c : Client) (w : World) :
  featureSupported c featureExtension = true ->
  let s1 := setExtSchema (DB c) (record EvLock w) in
  let s2 := setExtVersion (DB c) (snd s1) in
  let s3 := resourcePostgreSQLExtensionReadImpl c (snd s2) in
  resourcePostgreSQLExtensionUpdate c w
  = match fst s1 with
    | Some e => (Some e, record EvUnlock (snd s1))
    | None =>
        match fst s2 with
        | Some e => (Some e, record EvUnlock (snd s2))
        | None => (fst s3, record EvUnlock (snd s3))
        end
    end.
Proof.
  intros Hsup. cbv zeta.
  unfold resourcePostgreSQLExtensionUpdate. rewrite Hsup. cbn [negb].
  rewrite Lock_defer_Unlock_run. unfold bind, ret.
  destruct (setExtSchema _ _) as [[e1|] w1]; [reflexivity|]. cbn [fst snd].
  destruct (setExtVersion _ _) as [[e2|] w2]; reflexivity.
Qed.

(** ** What all events of a program have in common *)

Section Only.

Variable P : Event -> Prop.

Lemma emits_nil {A} (m : M A) (w : World) :
  w_trace (snd (m w)) = w_trace w -> emits m w [].
Proof. unfold emits. intros ->. symmetry. apply app_nil_r. Qed.

Lemma only_ret {A} (a : A) : only P (ret a).
Proof. intros w. exists []. split; [apply emits_nil; reflexivity|constructor]. Qed.

Lemma only_read_d {A} (f : ResourceData -> A) : only P (read_d f).
Proof. intros w. exists []. split; [apply emits_nil; reflexivity|constructor]. Qed.

Lemma only_write_d (f : ResourceData -> ResourceData) : only P (write_d f).
Proof. intros w. exists []. split; [apply emits_nil; reflexivity|constructor]. Qed.

Lemma only_emit (e : Event) : P e -> only P (emit e).
Proof. intros He w. exists [e]. split; [reflexivity|]. constructor; [exact He|constructor]. Qed.

Lemma only_dbExec (db : Driver) (sql : string) :
  P (EvExec sql) -> only P (dbExec db sql).
Proof. intros He w. exists [EvExec sql]. split; [reflexivity|]. constructor; [exact He|constructor]. Qed.

Lemma only_dbQueryRow (db : Driver) (query : string) (args : list string) :
  P (EvQueryRow query args) -> only P (dbQueryRow db query args).
Proof.
  intros He w. exists [EvQueryRow query args].
  split; [reflexivity|]. constructor; [exact He|constructor].
Qed.

Lemma only_bind {A B} (m : M A) (k : A -> M B) :
  only P m -> (forall a, only P (k a)) -> only P (bind m k).
Proof.
  intros Hm Hk w. destruct (Hm w) as (evs1 & E1 & F1).
  unfold emits, bind in *. destruct (m w) as [a w1]. cbn [snd] in E1.
  destruct (Hk a w1) as (evs2 & E2 & F2). unfold emits in E2.
  exists (evs1 ++ evs2)%list. split.
  - rewrite E2, E1. symmetry. apply app_assoc.
  - apply Forall_app; split; assumption.
Qed.

(** Under the exclusive lock: the lock is taken first and given back
    last, around whatever the body does. *)
Lemma Lock_defer_Unlock_bracket {A} (body : M A) :
  only P body ->
  forall w, exists evs,
    emits (Lock_defer_Unlock body) w (EvLock :: evs ++ [EvUnlock]) /\ Forall P evs.
Proof.
  intros Hb w. destruct (Hb (record EvLock w)) as (evs & E & F).
  exists evs. split; [|exact F].
  unfold emits in *. rewrite Lock_defer_Unlock_run. cbn [snd record w_trace] in *.
  rewrite E. rewrite <- !app_assoc. reflexivity.
Qed.

Lemma RLock_defer_RUnlock_bracket {A} (body : M A) :
  only P body ->
  forall w, exists evs,
    emits (RLock_defer_RUnlock body) w (EvRLock :: evs ++ [EvRUnlock]) /\ Forall P evs.
Proof.
  intros Hb w. destruct (Hb (record EvRLock w)) as (evs & E & F).
  exists evs. split; [|exact F].
  unfold emits in *. rewrite RLock_defer_RUnlock_run. cbn [snd record w_trace] in *.
  rewrite E. rewrite <- !app_assoc. reflexivity.
Qed.

End Only.

(** Takes a program apart along its binds, branches and matches. *)
Ltac only_steps :=
  repeat first
    [ apply only_ret
    | apply only_read_d
    | apply only_write_d
    | apply only_bind; [|intros ?]
    | match goal with
      | |- only _ (if ?b then _ else _) => destruct b
      | |- only _ (match ?x with _ => _ end) => destruct x
      | |- only _ (let '(_, _) := ?x in _) => destruct x
      end ].

Lemma ReadImpl_only (P : Event -> Prop) (c : Client) :
  (forall args, P (EvQueryRow queryRead args)) ->
  (forall msg, P (EvLog msg)) ->
  only P (resourcePostgreSQLExtensionReadImpl c).
Proof.
  intros Hq Hl. unfold resourcePostgreSQLExtensionReadImpl.
  only_steps; first [apply only_dbQueryRow, Hq | apply only_emit, Hl].
Qed.

Lemma setExtSchema_only (P : Event -> Prop) (db : Driver) :
  (forall sql, P (EvExec sql)) -> only P (setExtSchema db).
Proof.
  intros He. unfold setExtSchema. only_steps; apply only_dbExec, He.
Qed.

Lemma setExtVersion_only (P : Event -> Prop) (db : Driver) :
  (forall sql, P (EvExec sql)) -> only P (setExtVersion db).
Proof.
  intros He. unfold setExtVersion. only_steps; apply only_dbExec, He.
Qed.

(** ** The capability gate *)

(** C2. When the server's capability set lacks extensions, each of the
    five handlers returns the not-supported error at once and leaves the
    world as it found it: no lock is taken, no SQL is sent, the resource
    data is not touched. *)
Theorem capability_gate (c : Client) (w : World) :
  featureSupported c featureExtension = false ->
  resourcePostgreSQLExtensionCreate c w = (Some (errNotSupported c), w) /\
  resourcePostgreSQLExtensionRead c w = (Some (errNotSupported c), w) /\
  resourcePostgreSQLExtensionUpdate c w = (Some (errNotSupported c), w) /\
  resourcePostgreSQLExtensionDelete c w = (Some (errNotSupported c), w) /\
  resourcePostgreSQLExtensionExists c w = ((false, Some (errNotSupported c)), w).
Proof.
  intros Hno.
  unfold resourcePostgreSQLExtensionCreate, resourcePostgreSQLExtensionRead,
    resourcePostgreSQLExtensionUpdate, resourcePostgreSQLExtensionDelete,
    resourcePostgreSQLExtensionExists.
  rewrite Hno. repeat split.
Qed.

Lemma capability_gate_old_server :
  let c := Examples.old_server in
  let w := Examples.to_move_and_upgrade in
  resourcePostgreSQLExtensionCreate c w = (Some (errNotSupported c), w) /\
  resourcePostgreSQLExtensionRead c w = (Some (errNotSupported c), w) /\
  resourcePostgreSQLExtensionUpdate c w = (Some (errNotSupported c), w) /\
  resourcePostgreSQLExtensionDelete c w = (Some (errNotSupported c), w) /\
  resourcePostgreSQLExtensionExists c w = ((false, Some (errNotSupported c)), w).
Proof.
  exact (capability_gate Examples.old_server Examples.to_move_and_upgrade eq_refl).
Defined.

(** ** Create *)

Lemma ReadImpl_not_exec (c : Client) : only not_exec (resourcePostgreSQLExtensionReadImpl c).
Proof. apply ReadImpl_only; intros; reflexivity. Qed.

(** Under the lock, Create sends its statement, and nothing else to
    execute, whether the server takes it or not. *)
Lemma Create_emits (c : Client) (w : World) :
  featureSupported c featureExtension = true ->
  let d := w_d w in
  let sql := create_statement (Get extNameAttr d) (present extSchemaAttr d)
               (present extVersionAttr d) in
  exists rest,
    emits (resourcePostgreSQLExtensionCreate c) w (EvLock :: EvExec sql :: rest)
    /\ Forall not_exec rest.
Proof.
  intros Hsup d sql.
  unfold emits. rewrite (Create_run c w Hsup). fold d sql.
  destruct (drvExec _ _ _) as [e|].
  - exists [EvUnlock]. split; [|repeat constructor].
    cbn [snd record w_trace]. rewrite <- !app_assoc. reflexivity.
  - set (w1 := with_data _ _).
    destruct (ReadImpl_not_exec c w1) as (evs & E & F).
    exists (evs ++ [EvUnlock])%list. split.
    + unfold emits in E. cbn [snd record w_trace]. rewrite E.
      subst w1. cbn [with_data record w_trace]. rewrite <- !app_assoc. reflexivity.
    + apply Forall_app. split; [exact F|repeat constructor].
Qed.

(** C3. On a server with extensions, Create sends, right after taking the
    lock, exactly one statement to execute: CREATE EXTENSION IF NOT EXISTS
    and the quoted name, then the SCHEMA clause when (and only when) a
    schema is present, then the VERSION clause when (and only when) a
    version is present. Read back, that text is one creation statement with
    these identifiers and these clauses, and nothing else. *)
Theorem create_emits_statement (c : Client) (w : World) :
  featureSupported c featureExtension = true ->
  let d := w_d w in
  let name := Get extNameAttr d in
  let schema := present extSchemaAttr d in
  let version := present extVersionAttr d in
  let sql := create_statement name schema version in
  (exists rest,
      emits (resourcePostgreSQLExtensionCreate c) w (EvLock :: EvExec sql :: rest)
      /\ Forall not_exec rest)
  /\ parse_create sql
     = Some (truncate_nul name, truncate_nul <$> schema, truncate_nul <$> version).
Proof.
  intros Hsup d name schema version sql.
  split; [exact (Create_emits c w Hsup)|apply parse_create_statement].
Qed.

Lemma create_emits_statement_hstore :
  let sql := "CREATE EXTENSION IF NOT EXISTS " +:+ dquote +:+ "hstore" +:+ dquote
             +:+ " SCHEMA " +:+ dquote +:+ "app" +:+ dquote in
  (exists rest,
      emits (resourcePostgreSQLExtensionCreate (Examples.server Examples.healthy))
        Examples.to_create (EvLock :: EvExec sql :: rest)
      /\ Forall not_exec rest)
  /\ parse_create sql = Some ("hstore", Some "app", None).
Proof.
  exact (create_emits_statement (Examples.server Examples.healthy)
           Examples.to_create eq_refl).
Defined.

(** The read looks at the identity and at the trace, and at nothing else
    of the resource data. *)
Lemma ReadImpl_depends (c : Client) (w w' : World) :
  Id (w_d w) = Id (w_d w') ->
  w_trace w = w_trace w' ->
  fst (resourcePostgreSQLExtensionReadImpl c w)
  = fst (resourcePostgreSQLExtensionReadImpl c w')
  /\ w_trace (snd (resourcePostgreSQLExtensionReadImpl c w))
     = w_trace (snd (resourcePostgreSQLExtensionReadImpl c w')).
Proof.
  intros Hid Htr. rewrite !ReadImpl_run. cbv zeta. rewrite <- Hid, <- Htr.
  destruct (Scan3 _) as [[[a b] v] [e|]]; [destruct (is_ErrNoRows e)|];
    cbn [fst snd with_data record w_trace]; rewrite <- ?Htr; split; reflexivity.
Qed.

(** Create looks at the name and at the schema and version that are
    present, and at nothing else of the resource data. *)
Lemma Create_depends (c : Client) (w w' : World) :
  featureSupported c featureExtension = true ->
  w_trace w = w_trace w' ->
  Get extNameAttr (w_d w) = Get extNameAttr (w_d w') ->
  present extSchemaAttr (w_d w) = present extSchemaAttr (w_d w') ->
  present extVersionAttr (w_d w) = present extVersionAttr (w_d w') ->
  fst (resourcePostgreSQLExtensionCreate c w) = fst (resourcePostgreSQLExtensionCreate c w')
  /\ w_trace (snd (resourcePostgreSQLExtensionCreate c w))
     = w_trace (snd (resourcePostgreSQLExtensionCreate c w')).
Proof.
  intros Hsup Htr Hn Hs Hv. rewrite !(Create_run c _ Hsup). cbv zeta.
  rewrite <- Hn, <- Hs, <- Hv. cbn [record w_trace]. rewrite <- Htr.
  destruct (drvExec _ _ _) as [e|].
  - cbn [fst snd record w_trace]. rewrite <- Htr. split; reflexivity.
  - cbn [fst snd record w_trace].
    match goal with
    | |- context [resourcePostgreSQLExtensionReadImpl c ?a] =>
        match goal with
        | |- context [resourcePostgreSQLExtensionReadImpl c ?b] =>
            tryif constr_eq a b then fail else
              destruct (ReadImpl_depends c a b) as [Hr Ht]
        end
    end.
    + reflexivity.
    + cbn [with_data record w_trace]. rewrite <- Htr. reflexivity.
    + rewrite Hr, Ht. split; reflexivity.
Qed.

Lemma present_spec (key : string) (d : ResourceData) :
  present key d
  = if String.eqb (Get key d) EmptyString then None else Some (Get key d).
Proof. unfold present, GetOk. destruct (String.eqb _ _); reflexivity. Qed.

Lemma Get_without_attr (key : string) (d : ResourceData) :
  Get key (without_attr key d) = EmptyString.
Proof. unfold Get, without_attr. cbn. rewrite !lookup_delete_eq. reflexivity. Qed.

Lemma Get_without_attr_ne (key key' : string) (d : ResourceData) :
  key <> key' -> Get key' (without_attr key d) = Get key' d.
Proof.
  intros Hne. unfold Get, without_attr. cbn.
  rewrite !lookup_delete_ne by exact Hne. reflexivity.
Qed.

(** An attribute that reads as the empty string can as well be left out:
    Create does the same either way. *)
Lemma Create_without_empty (c : Client) (w : World) (key : string) :
  featureSupported c featureExtension = true ->
  key <> extNameAttr ->
  Get key (w_d w) = EmptyString ->
  fst (resourcePostgreSQLExtensionCreate c (with_data (without_attr key (w_d w)) w))
  = fst (resourcePostgreSQLExtensionCreate c w)
  /\ w_trace (snd (resourcePostgreSQLExtensionCreate c (with_data (without_attr key (w_d w)) w)))
     = w_trace (snd (resourcePostgreSQLExtensionCreate c w)).
Proof.
  intros Hsup Hname Hempty.
  assert (Hget : forall k, Get k (without_attr key (w_d w)) = Get k (w_d w)).
  { intros k. destruct (decide (key = k)) as [<-|Hne].
    - rewrite Get_without_attr, Hempty. reflexivity.
    - apply Get_without_attr_ne, Hne. }
  apply Create_depends; cbn [with_data w_d w_trace];
    rewrite ?present_spec, ?Hget; auto.
Qed.

(** C9. On Create, a schema (respectively a version) that is the empty
    string is treated as one that is not there: the statement sent has no
    SCHEMA (respectively VERSION) clause at all, so never one with an empty
    identifier, and Create returns the same and sends the same as it does
    for resource data in which the attribute is left out. *)
Theorem create_empty_is_absent (c : Client) (w : World) :
  featureSupported c featureExtension = true ->
  let d := w_d w in
  let name := Get extNameAttr d in
  let create := resourcePostgreSQLExtensionCreate c in
  (Get extSchemaAttr d = EmptyString ->
   let sql := create_statement name None (present extVersionAttr d) in
   (exists rest, emits create w (EvLock :: EvExec sql :: rest) /\ Forall not_exec rest)
   /\ parse_create sql
      = Some (truncate_nul name, None, truncate_nul <$> present extVersionAttr d)
   /\ fst (create (with_data (without_attr extSchemaAttr d) w)) = fst (create w)
   /\ w_trace (snd (create (with_data (without_attr extSchemaAttr d) w)))
      = w_trace (snd (create w)))
  /\
  (Get extVersionAttr d = EmptyString ->
   let sql := create_statement name (present extSchemaAttr d) None in
   (exists rest, emits create w (EvLock :: EvExec sql :: rest) /\ Forall not_exec rest)
   /\ parse_create sql
      = Some (truncate_nul name, truncate_nul <$> present extSchemaAttr d, None)
   /\ fst (create (with_data (without_attr extVersionAttr d) w)) = fst (create w)
   /\ w_trace (snd (create (with_data (without_attr extVersionAttr d) w)))
      = w_trace (snd (create w))).
Proof.
  intros Hsup d name create.
  assert (Hrun := Create_emits c w Hsup). cbv zeta in Hrun. fold d name create in Hrun.
  split; intros Hempty sql.
  - assert (Hp : present extSchemaAttr d = None)
      by (rewrite present_spec, Hempty; reflexivity).
    rewrite Hp in Hrun. split; [exact Hrun|].
    split; [apply parse_create_statement|].
    apply Create_without_empty; [exact Hsup|discriminate|exact Hempty].
  - assert (Hp : present extVersionAttr d = None)
      by (rewrite present_spec, Hempty; reflexivity).
    rewrite Hp in Hrun. split; [exact Hrun|].
    split; [apply parse_create_statement|].
    apply Create_without_empty; [exact Hsup|discriminate|exact Hempty].
Qed.

Lemma create_empty_is_absent_hstore :
  let c := Examples.server Examples.healthy in
  let create := resourcePostgreSQLExtensionCreate c in
  (let w := Examples.to_empty_schema in
   let sql := create_statement "hstore" None (Some "1.0") in
   (exists rest, emits create w (EvLock :: EvExec sql :: rest) /\ Forall not_exec rest)
   /\ parse_create sql = Some ("hstore", None, Some "1.0")
   /\ fst (create (with_data (without_attr extSchemaAttr (w_d w)) w)) = fst (create w)
   /\ w_trace (snd (create (with_data (without_attr extSchemaAttr (w_d w)) w)))
      = w_trace (snd (create w)))
  /\
  (let w := Examples.to_create in
   let sql := create_statement "hstore" (Some "app") None in
   (exists rest, emits create w (EvLock :: EvExec sql :: rest) /\ Forall not_exec rest)
   /\ parse_create sql = Some ("hstore", Some "app", None)
   /\ fst (create (with_data (without_attr extVersionAttr (w_d w)) w)) = fst (create w)
   /\ w_trace (snd (create (with_data (without_attr extVersionAttr (w_d w)) w)))
      = w_trace (snd (create w))).
Proof.
  split.
  - exact (proj1 (create_empty_is_absent (Examples.server Examples.healthy)
                    Examples.to_empty_schema eq_refl) eq_refl).
  - exact (proj2 (create_empty_is_absent (Examples.server Examples.healthy)
                    Examples.to_create eq_refl) eq_refl).
Defined.

(** ** Quoting *)

Lemma render_app (fs1 fs2 : list Fragment) :
  render (fs1 ++ fs2) = render fs1 +:+ render fs2.
Proof.
  induction fs1 as [|f fs1 IH]; [reflexivity|].
  cbn [render app]. rewrite IH, append_assoc. reflexivity.
Qed.

Lemma quoted_keyword (text : string) :
  In text statement_keywords -> quoted_statement text.
Proof.
  intros Hin. exists [Keyword text]. split.
  - cbn [render render_fragment]. rewrite append_empty_r. reflexivity.
  - constructor; [exact Hin|constructor].
Qed.

Lemma quoted_QuoteIdentifier (ident : string) : quoted_statement (QuoteIdentifier ident).
Proof.
  exists [Quoted ident]. split.
  - cbn [render render_fragment]. rewrite append_empty_r. reflexivity.
  - constructor; [exact I|constructor].
Qed.

Lemma quoted_append (a b : string) :
  quoted_statement a -> quoted_statement b -> quoted_statement (a +:+ b).
Proof.
  intros (fa & -> & Fa) (fb & -> & Fb). exists (fa ++ fb)%list. split.
  - symmetry. apply render_app.
  - apply Forall_app. split; assumption.
Qed.

(** Statement text put together from fixed text and quoted identifiers. *)
Ltac quoted :=
  repeat first
    [ solve [apply quoted_keyword; cbn; tauto]
    | apply quoted_QuoteIdentifier
    | apply quoted_append ].

Ltac injection_free_steps :=
  only_steps; cbv zeta; only_steps;
  first
    [ apply only_emit; exact I
    | apply only_dbExec; cbn [injection_free];
      repeat match goal with |- context [if ?b then _ else _] => destruct b end;
      quoted
    | apply only_dbQueryRow; cbn [injection_free]; tauto ].

Lemma ReadImpl_injection_free (c : Client) :
  only injection_free (resourcePostgreSQLExtensionReadImpl c).
Proof. apply ReadImpl_only; intros; cbn; tauto. Qed.

Lemma Create_injection_free (c : Client) :
  only injection_free (resourcePostgreSQLExtensionCreate c).
Proof.
  unfold resourcePostgreSQLExtensionCreate, Lock_defer_Unlock.
  destruct (negb _); [apply only_ret|].
  apply only_bind; [apply only_emit; exact I|intros _].
  apply only_bind; [|intros r; apply only_bind; [apply only_emit; exact I|intros _; apply only_ret]].
  apply only_bind; [apply only_read_d|intros name]. cbv zeta.
  apply only_bind; [apply only_read_d|intros vs].
  apply only_bind; [apply only_read_d|intros vv].
  apply only_bind.
  - apply only_dbExec. cbn [injection_free].
    destruct (snd vs), (snd vv); quoted.
  - intros [e|]; [apply only_ret|].
    apply only_bind; [apply only_write_d|intros _; apply ReadImpl_injection_free].
Qed.

Lemma Exists_injection_free (c : Client) :
  only injection_free (resourcePostgreSQLExtensionExists c).
Proof.
  unfold resourcePostgreSQLExtensionExists, Lock_defer_Unlock.
  injection_free_steps.
Qed.

Lemma Read_injection_free (c : Client) :
  only injection_free (resourcePostgreSQLExtensionRead c).
Proof.
  unfold resourcePostgreSQLExtensionRead, RLock_defer_RUnlock.
  destruct (negb _); [apply only_ret|].
  apply only_bind; [apply only_emit; exact I|intros _].
  apply only_bind; [apply ReadImpl_injection_free|intros r].
  apply only_bind; [apply only_emit; exact I|intros _; apply only_ret].
Qed.

Lemma Delete_injection_free (c : Client) :
  only injection_free (resourcePostgreSQLExtensionDelete c).
Proof.
  unfold resourcePostgreSQLExtensionDelete, Lock_defer_Unlock.
  injection_free_steps.
Qed.

Lemma setExtSchema_injection_free (db : Driver) : only injection_free (setExtSchema db).
Proof. unfold setExtSchema. injection_free_steps. Qed.

Lemma setExtVersion_injection_free (db : Driver) : only injection_free (setExtVersion db).
Proof. unfold setExtVersion. injection_free_steps. Qed.

Lemma Update_injection_free (c : Client) :
  only injection_free (resourcePostgreSQLExtensionUpdate c).
Proof.
  unfold resourcePostgreSQLExtensionUpdate, Lock_defer_Unlock.
  destruct (negb _); [apply only_ret|].
  apply only_bind; [apply only_emit; exact I|intros _].
  apply only_bind; [|intros r; apply only_bind; [apply only_emit; exact I|intros _; apply only_ret]].
  apply only_bind; [apply setExtSchema_injection_free|intros [e|]; [apply only_ret|]].
  apply only_bind; [apply setExtVersion_injection_free|intros [e|]; [apply only_ret|]].
  apply ReadImpl_injection_free.
Qed.

(** ** Rows that are not there *)

Lemma Scan3_RowErr (e : error) :
  Scan3 (RowErr e) = ((EmptyString, EmptyString, EmptyString), Some e).
Proof. reflexivity. Qed.

Lemma Scan1_RowErr (e : error) : Scan1 (RowErr e) = (EmptyString, Some e).
Proof. reflexivity. Qed.

Lemma is_ErrNoRows_false (e : error) : e <> ErrNoRows -> is_ErrNoRows e = false.
Proof. destruct e; cbn; congruence. Qed.

(** C4. A query that finds no row is not an error. When the full read
    finds none, Read (and the read that finishes Create and Update) empties
    the identity and returns no error; when the probe finds none, Exists
    returns false and no error. Any other error of the query comes back to
    the caller: wrapped by the read, as it is by Exists. *)
Theorem no_rows_is_not_an_error (c : Client) (w : World) :
  featureSupported c featureExtension = true ->
  let id' := Id (w_d w) in
  let read := resourcePostgreSQLExtensionRead c w in
  let readImpl := resourcePostgreSQLExtensionReadImpl c w in
  let exists_ := resourcePostgreSQLExtensionExists c w in
  let under_rlock := drvQueryRow (DB c) (w_trace w ++ [EvRLock]) queryRead [id'] in
  let bare_read := drvQueryRow (DB c) (w_trace w) queryRead [id'] in
  let probe := drvQueryRow (DB c) (w_trace w ++ [EvLock]) queryExists [id'] in
  (under_rlock = RowErr ErrNoRows ->
     fst read = None /\ Id (w_d (snd read)) = EmptyString)
  /\ (bare_read = RowErr ErrNoRows ->
     fst readImpl = None /\ Id (w_d (snd readImpl)) = EmptyString)
  /\ (probe = RowErr ErrNoRows -> fst exists_ = (false, None))
  /\ (forall e, e <> ErrNoRows -> under_rlock = RowErr e ->
        fst read = Some (Wrapf "Error reading extension: {{err}}" e))
  /\ (forall e, e <> ErrNoRows -> bare_read = RowErr e ->
        fst readImpl = Some (Wrapf "Error reading extension: {{err}}" e))
  /\ (forall e, e <> ErrNoRows -> probe = RowErr e -> fst exists_ = (false, Some e)).
Proof.
  intros Hsup id' read readImpl exists_ under_rlock bare_read probe.
  subst read readImpl exists_.
  rewrite (Read_run c w Hsup), (Exists_run c w Hsup), !ReadImpl_run. cbv zeta.
  cbn [record w_d w_trace]. fold id' under_rlock bare_read probe.
  split; [|split; [|split; [|split; [|split]]]].
  - intros ->. split; reflexivity.
  - intros ->. split; reflexivity.
  - intros ->. reflexivity.
  - intros e He ->. rewrite Scan3_RowErr, (is_ErrNoRows_false e He). reflexivity.
  - intros e He ->. rewrite Scan3_RowErr, (is_ErrNoRows_false e He). reflexivity.
  - intros e He ->. rewrite Scan1_RowErr, (is_ErrNoRows_false e He). reflexivity.
Qed.

Lemma no_rows_is_not_an_error_gone :
  let gone := Examples.server Examples.bare in
  let down := Examples.server Examples.refusing in
  let w := Examples.unchanged in
  (fst (resourcePostgreSQLExtensionRead gone w) = None
   /\ Id (w_d (snd (resourcePostgreSQLExtensionRead gone w))) = EmptyString)
  /\ fst (resourcePostgreSQLExtensionExists gone w) = (false, None)
  /\ fst (resourcePostgreSQLExtensionRead down w)
     = Some (Wrapf "Error reading extension: {{err}}" (DriverError "permission denied"))
  /\ fst (resourcePostgreSQLExtensionExists down w)
     = (false, Some (DriverError "permission denied")).
Proof.
  destruct (no_rows_is_not_an_error (Examples.server Examples.bare)
              Examples.unchanged eq_refl) as (Hread & _ & Hprobe & _).
  destruct (no_rows_is_not_an_error (Examples.server Examples.refusing)
              Examples.unchanged eq_refl) as (_ & _ & _ & Hread' & _ & Hprobe').
  split; [exact (Hread eq_refl)|].
  split; [exact (Hprobe eq_refl)|].
  split.
  - apply Hread'; [discriminate|reflexivity].
  - apply Hprobe'; [discriminate|reflexivity].
Defined.

(** ** Update *)

Lemma setExtSchema_emits (db : Driver) (w : World) :
  let sql := relocate_statement (Id (w_d w)) (snd (GetChange extSchemaAttr (w_d w))) in
  exists evs,
    emits (setExtSchema db) w evs
    /\ (evs = [] \/ evs = [EvExec sql])
    /\ w_d (snd (setExtSchema db w)) = w_d w.
Proof.
  cbv zeta. unfold emits. rewrite setExtSchema_run. cbv zeta.
  destruct (negb _); [|destruct (String.eqb _ _)]; cbn [snd record w_d w_trace].
  - exists []. rewrite app_nil_r. auto.
  - exists []. rewrite app_nil_r. auto.
  - eexists. split; [reflexivity|]. auto.
Qed.

Lemma setExtVersion_emits (db : Driver) (w : World) :
  let n := snd (GetChange extVersionAttr (w_d w)) in
  let sql := reversion_statement (Id (w_d w))
               (if String.eqb n EmptyString then None else Some n) in
  exists evs,
    emits (setExtVersion db) w evs
    /\ (evs = [] \/ evs = [EvExec sql])
    /\ w_d (snd (setExtVersion db w)) = w_d w.
Proof.
  cbv zeta. unfold emits. rewrite setExtVersion_run. cbv zeta.
  destruct (negb _); cbn [snd record w_d w_trace].
  - exists []. rewrite app_nil_r. auto.
  - eexists. split; [reflexivity|]. auto.
Qed.

(** The read sends its one query first, and no SQL after it. *)
Lemma ReadImpl_emits (c : Client) (w : World) :
  exists log,
    emits (resourcePostgreSQLExtensionReadImpl c) w
      (EvQueryRow queryRead [Id (w_d w)] :: log)
    /\ Forall (fun e => is_sql e = false /\ is_lock_event e = false) log.
Proof.
  unfold emits. rewrite ReadImpl_run. cbv zeta.
  destruct (Scan3 _) as [[[a b] v] [e|]]; [destruct (is_ErrNoRows e)|];
    cbn [snd with_data record w_trace].
  - eexists [_]. rewrite <- app_assoc. split; [reflexivity|]. repeat constructor.
  - exists []. split; [reflexivity|constructor].
  - exists []. split; [reflexivity|constructor].
Qed.

Lemma Forall_quiet_not_exec (evs : list Event) :
  Forall (fun e => is_sql e = false /\ is_lock_event e = false) evs ->
  Forall not_exec evs.
Proof.
  intros H. eapply Forall_impl; [exact H|].
  intros e [Hsql _]. unfold not_exec.
  destruct e; cbn in *; congruence.
Qed.

Lemma Forall_quiet_not_sql (evs : list Event) :
  Forall (fun e => is_sql e = false /\ is_lock_event e = false) evs ->
  Forall (fun e => is_sql e = false) evs.
Proof. intros H. eapply Forall_impl; [exact H|]. intros e [Hsql _]. exact Hsql. Qed.

(** Every run of Update on a server with extensions: the lock, what the
    schema sub-step sent, what the version sub-step sent, what the read
    sent, the unlock. *)
Lemma Update_emits (c : Client) (w : World) :
  featureSupported c featureExtension = true ->
  let d := w_d w in
  let n := snd (GetChange extVersionAttr d) in
  let relocate := relocate_statement (Id d) (snd (GetChange extSchemaAttr d)) in
  let reversion := reversion_statement (Id d)
                     (if String.eqb n EmptyString then None else Some n) in
  exists evs_s evs_v evs_r,
    emits (resourcePostgreSQLExtensionUpdate c) w
      (EvLock :: evs_s ++ evs_v ++ evs_r ++ [EvUnlock])
    /\ (evs_s = [] \/ evs_s = [EvExec relocate])
    /\ (evs_v = [] \/ evs_v = [EvExec reversion])
    /\ Forall not_exec evs_r.
Proof.
  intros Hsup d n relocate reversion.
  unfold emits. rewrite (Update_run c w Hsup). cbv zeta.
  destruct (setExtSchema_emits (DB c) (record EvLock w)) as (evs_s & Es & Hs & Ds).
  unfold emits in Es. cbn [record w_d w_trace] in Es, Hs, Ds. fold d relocate in Hs.
  destruct (fst (setExtSchema (DB c) (record EvLock w))) as [e1|].
  { exists evs_s, [], []. cbn [snd record w_trace]. rewrite Es.
    rewrite <- !app_assoc.
    split; [reflexivity|]. split; [exact Hs|]. split; [left; reflexivity|constructor]. }
  destruct (setExtVersion_emits (DB c) (snd (setExtSchema (DB c) (record EvLock w))))
    as (evs_v & Ev & Hv & Dv).
  unfold emits in Ev. rewrite Ds in Hv. fold d n reversion in Hv.
  destruct (fst (setExtVersion (DB c) _)) as [e2|].
  { exists evs_s, evs_v, []. cbn [snd record w_trace]. rewrite Ev, Es.
    rewrite <- !app_assoc.
    split; [reflexivity|]. split; [exact Hs|]. split; [exact Hv|constructor]. }
  destruct (ReadImpl_emits c (snd (setExtVersion (DB c)
              (snd (setExtSchema (DB c) (record EvLock w)))))) as (log & Er & Fr).
  unfold emits in Er.
  eexists evs_s, evs_v, (_ :: log). cbn [snd record w_trace]. rewrite Er, Ev, Es.
  rewrite <- !app_assoc.
  split; [reflexivity|]. split; [exact Hs|]. split; [exact Hv|].
  constructor; [reflexivity|]. apply Forall_quiet_not_exec, Fr.
Qed.

Lemma setExtSchema_skipped (db : Driver) (w : World) :
  HasChange extSchemaAttr (w_d w) = false -> setExtSchema db w = (None, w).
Proof. intros H. rewrite setExtSchema_run. cbv zeta. rewrite H. reflexivity. Qed.

Lemma setExtSchema_empty (db : Driver) (w : World) :
  HasChange extSchemaAttr (w_d w) = true ->
  snd (GetChange extSchemaAttr (w_d w)) = EmptyString ->
  setExtSchema db w = (Some errEmptySchema, w).
Proof. intros H Hn. rewrite setExtSchema_run. cbv zeta. rewrite H, Hn. reflexivity. Qed.

Lemma setExtSchema_sent (db : Driver) (w : World) :
  HasChange extSchemaAttr (w_d w) = true ->
  snd (GetChange extSchemaAttr (w_d w)) <> EmptyString ->
  let sql := relocate_statement (Id (w_d w)) (snd (GetChange extSchemaAttr (w_d w))) in
  setExtSchema db w
  = (Wrapf "Error updating extension SCHEMA: {{err}}" <$> drvExec db (w_trace w) sql,
     record (EvExec sql) w).
Proof.
  intros H Hn. rewrite setExtSchema_run. cbv zeta. rewrite H.
  apply String.eqb_neq in Hn. rewrite Hn. reflexivity.
Qed.

Lemma setExtVersion_skipped (db : Driver) (w : World) :
  HasChange extVersionAttr (w_d w) = false -> setExtVersion db w = (None, w).
Proof. intros H. rewrite setExtVersion_run. cbv zeta. rewrite H. reflexivity. Qed.

Lemma setExtVersion_sent (db : Driver) (w : World) :
  HasChange extVersionAttr (w_d w) = true ->
  let n := snd (GetChange extVersionAttr (w_d w)) in
  let sql := reversion_statement (Id (w_d w))
               (if String.eqb n EmptyString then None else Some n) in
  setExtVersion db w
  = (Wrapf "Error updating extension version: {{err}}" <$> drvExec db (w_trace w) sql,
     record (EvExec sql) w).
Proof. intros H. rewrite setExtVersion_run. cbv zeta. rewrite H. reflexivity. Qed.

(** C5. In every run of Update the relocation statement, if one is sent,
    comes before the upgrade statement, if one is sent, and nothing is sent
    to execute after it. When the relocation went through and the upgrade
    is refused, Update returns the upgrade's error, having sent the two
    statements and nothing else: nothing undoes the relocation, and the
    catalog is not read. When neither sub-step reports an error, Update
    ends with the full read and returns what it returns. *)
Theorem update_relocates_then_upgrades (c : Client) (w : World) :
  featureSupported c featureExtension = true ->
  let d := w_d w in
  let update := resourcePostgreSQLExtensionUpdate c in
  let n := snd (GetChange extVersionAttr d) in
  let relocate := relocate_statement (Id d) (snd (GetChange extSchemaAttr d)) in
  let reversion := reversion_statement (Id d)
                     (if String.eqb n EmptyString then None else Some n) in
  let locked := (w_trace w ++ [EvLock])%list in
  (exists evs_s evs_v evs_r,
      emits update w (EvLock :: evs_s ++ evs_v ++ evs_r ++ [EvUnlock])
      /\ (evs_s = [] \/ evs_s = [EvExec relocate])
      /\ (evs_v = [] \/ evs_v = [EvExec reversion])
      /\ Forall not_exec evs_r)
  /\ (HasChange extSchemaAttr d = true ->
      snd (GetChange extSchemaAttr d) <> EmptyString ->
      HasChange extVersionAttr d = true ->
      drvExec (DB c) locked relocate = None ->
      forall e, drvExec (DB c) (locked ++ [EvExec relocate]) reversion = Some e ->
        fst (update w) = Some (Wrapf "Error updating extension version: {{err}}" e)
        /\ emits update w [EvLock; EvExec relocate; EvExec reversion; EvUnlock])
  /\ (let s1 := setExtSchema (DB c) (record EvLock w) in
      let s2 := setExtVersion (DB c) (snd s1) in
      fst s1 = None -> fst s2 = None ->
      exists before log,
        emits update w (before ++ EvQueryRow queryRead [Id d] :: log ++ [EvUnlock])
        /\ Forall (fun e => is_sql e = false) log
        /\ fst (update w) = fst (resourcePostgreSQLExtensionReadImpl c (snd s2))).
Proof.
  intros Hsup d update n relocate reversion locked.
  split; [exact (Update_emits c w Hsup)|]. split.
  - intros Hcs Hns Hcv Hok e Hrefused. subst update. unfold emits.
    rewrite (Update_run c w Hsup). cbv zeta.
    rewrite (setExtSchema_sent (DB c) (record EvLock w) Hcs Hns). cbv zeta.
    cbn [fst snd record w_d w_trace]. fold d relocate locked. rewrite Hok.
    cbn [fmap option_fmap option_map].
    rewrite (setExtVersion_sent (DB c) (record (EvExec relocate) (record EvLock w)) Hcv).
    cbv zeta. cbn [fst snd record w_d w_trace]. fold d n reversion locked.
    rewrite Hrefused. cbn [fmap option_fmap option_map fst snd record w_trace].
    split; [reflexivity|]. rewrite <- !app_assoc. reflexivity.
  - intros s1 s2 H1 H2. subst update. unfold emits.
    rewrite (Update_run c w Hsup). cbv zeta. fold s1. rewrite H1. fold s2. rewrite H2.
    destruct (setExtSchema_emits (DB c) (record EvLock w)) as (evs_s & Es & _ & Ds).
    destruct (setExtVersion_emits (DB c) (snd s1)) as (evs_v & Ev & _ & Dv).
    destruct (ReadImpl_emits c (snd s2)) as (log & Er & Fr).
    unfold emits in Es, Ev, Er. fold s1 in Es, Ds. fold s2 in Ev, Dv.
    rewrite Dv, Ds in Er. cbn [record w_d w_trace] in Es, Er. fold d in Er.
    exists (EvLock :: evs_s ++ evs_v)%list, log.
    cbn [fst snd record w_trace]. rewrite Er, Ev, Es.
    split; [|split; [apply Forall_quiet_not_sql, Fr|reflexivity]].
    repeat first [rewrite <- app_assoc | progress cbn [app]]. reflexivity.
Qed.

Lemma update_relocates_then_upgrades_hstore :
  let w := Examples.to_move_and_upgrade in
  let relocate := relocate_statement "hstore" "app" in
  let reversion := reversion_statement "hstore" (Some "1.1") in
  (fst (resourcePostgreSQLExtensionUpdate (Examples.server Examples.one_shot) w)
   = Some (Wrapf "Error updating extension version: {{err}}" (DriverError "no update path"))
   /\ emits (resourcePostgreSQLExtensionUpdate (Examples.server Examples.one_shot)) w
        [EvLock; EvExec relocate; EvExec reversion; EvUnlock])
  /\ (exists before log,
        emits (resourcePostgreSQLExtensionUpdate (Examples.server Examples.healthy)) w
          (before ++ EvQueryRow queryRead ["hstore"] :: log ++ [EvUnlock])
        /\ Forall (fun e => is_sql e = false) log
        /\ fst (resourcePostgreSQLExtensionUpdate (Examples.server Examples.healthy) w)
           = None).
Proof.
  split.
  - destruct (update_relocates_then_upgrades (Examples.server Examples.one_shot)
                Examples.to_move_and_upgrade eq_refl) as (_ & Hrefused & _).
    apply Hrefused; [reflexivity|discriminate|reflexivity|reflexivity|reflexivity].
  - destruct (update_relocates_then_upgrades (Examples.server Examples.healthy)
                Examples.to_move_and_upgrade eq_refl) as (_ & _ & Hread).
    exact (Hread eq_refl eq_refl).
Defined.

(** With nothing to change, Update is the read under the lock. *)
Lemma Update_unchanged_run (c : Client) (w : World) :
  featureSupported c featureExtension = true ->
  HasChange extSchemaAttr (w_d w) = false ->
  HasChange extVersionAttr (w_d w) = false ->
  let r := resourcePostgreSQLExtensionReadImpl c (record EvLock w) in
  resourcePostgreSQLExtensionUpdate c w = (fst r, record EvUnlock (snd r)).
Proof.
  intros Hsup Hs Hv. cbv zeta. rewrite (Update_run c w Hsup). cbv zeta.
  rewrite (setExtSchema_skipped (DB c) (record EvLock w) Hs). cbn [fst snd].
  rewrite (setExtVersion_skipped (DB c) (record EvLock w) Hv). reflexivity.
Qed.

(** C6, as the code has it. With no field reporting a change, Update sends
    nothing to execute: between taking and giving back the lock it sends
    the one query of the finishing read, and it returns what that read
    returns, which is no error when the query finds a row or finds none and
    the wrapped error of the query otherwise. *)
Theorem update_unchanged_only_reads (c : Client) (w : World) :
  featureSupported c featureExtension = true ->
  HasChange extSchemaAttr (w_d w) = false ->
  HasChange extVersionAttr (w_d w) = false ->
  let update := resourcePostgreSQLExtensionUpdate c in
  let row := drvQueryRow (DB c) (w_trace w ++ [EvLock]) queryRead [Id (w_d w)] in
  (exists log,
      emits update w (EvLock :: EvQueryRow queryRead [Id (w_d w)] :: log ++ [EvUnlock])
      /\ Forall (fun e => is_sql e = false) log)
  /\ fst (update w)
     = match snd (Scan3 row) with
       | Some e =>
           if is_ErrNoRows e then None
           else Some (Wrapf "Error reading extension: {{err}}" e)
       | None => None
       end.
Proof.
  intros Hsup Hs Hv update row. subst update. unfold emits.
  rewrite (Update_unchanged_run c w Hsup Hs Hv). cbv zeta. split.
  - destruct (ReadImpl_emits c (record EvLock w)) as (log & Er & Fr).
    exists log. split; [|apply Forall_quiet_not_sql, Fr].
    unfold emits in *. cbn [snd record w_d w_trace] in *. rewrite Er.
    repeat first [rewrite <- app_assoc | progress cbn [app]]. reflexivity.
  - cbn [fst]. rewrite ReadImpl_run. cbv zeta. cbn [record w_d w_trace]. fold row.
    destruct (Scan3 row) as [[[a b] v] [e|]]; cbn [snd];
      [destruct (is_ErrNoRows e)|]; reflexivity.
Qed.

Lemma update_unchanged_only_reads_hstore :
  let update := resourcePostgreSQLExtensionUpdate (Examples.server Examples.healthy) in
  (exists log,
      emits update Examples.unchanged
        (EvLock :: EvQueryRow queryRead ["hstore"] :: log ++ [EvUnlock])
      /\ Forall (fun e => is_sql e = false) log)
  /\ fst (update Examples.unchanged) = None.
Proof.
  exact (update_unchanged_only_reads (Examples.server Examples.healthy)
           Examples.unchanged eq_refl eq_refl eq_refl).
Defined.

(** C6, as the specification words it, does not hold: on a healthy server,
    an Update with nothing to change sends the query of the finishing read;
    and on a server that refuses the query it returns an error. *)
Lemma update_unchanged_is_not_silent :
  ~ update_is_silent (Examples.server Examples.healthy) Examples.unchanged
  /\ ~ update_is_silent (Examples.server Examples.refusing) Examples.unchanged.
Proof.
  split; intros Hsilent; destruct (Hsilent eq_refl eq_refl) as [Hsql Hok].
  - specialize (Hsql [EvLock; EvQueryRow queryRead ["hstore"]; EvUnlock] eq_refl).
    vm_compute in Hsql. discriminate Hsql.
  - vm_compute in Hok. discriminate Hok.
Qed.

(** C7. An Update that changes the schema to the empty string fails with
    the validation error of the schema sub-step. That sub-step sends
    nothing; the version sub-step and the finishing read are not reached:
    all Update does is take the lock and give it back. *)
Theorem update_rejects_empty_schema (c : Client) (w : World) :
  featureSupported c featureExtension = true ->
  HasChange extSchemaAttr (w_d w) = true ->
  snd (GetChange extSchemaAttr (w_d w)) = EmptyString ->
  resourcePostgreSQLExtensionUpdate c w
  = (Some errEmptySchema, record EvUnlock (record EvLock w))
  /\ emits (resourcePostgreSQLExtensionUpdate c) w [EvLock; EvUnlock]
  /\ setExtSchema (DB c) (record EvLock w) = (Some errEmptySchema, record EvLock w).
Proof.
  intros Hsup Hc Hn.
  assert (Hstep := setExtSchema_empty (DB c) (record EvLock w) Hc Hn).
  assert (Hrun : resourcePostgreSQLExtensionUpdate c w
                 = (Some errEmptySchema, record EvUnlock (record EvLock w))).
  { rewrite (Update_run c w Hsup). cbv zeta. rewrite Hstep. reflexivity. }
  split; [exact Hrun|]. split; [|exact Hstep].
  unfold emits. rewrite Hrun. cbn [snd record w_trace].
  rewrite <- app_assoc. reflexivity.
Qed.

Lemma update_rejects_empty_schema_hstore :
  let c := Examples.server Examples.healthy in
  let w := Examples.to_empty_schema in
  resourcePostgreSQLExtensionUpdate c w
  = (Some errEmptySchema, record EvUnlock (record EvLock w))
  /\ emits (resourcePostgreSQLExtensionUpdate c) w [EvLock; EvUnlock]
  /\ setExtSchema (DB c) (record EvLock w) = (Some errEmptySchema, record EvLock w).
Proof.
  exact (update_rejects_empty_schema (Examples.server Examples.healthy)
           Examples.to_empty_schema eq_refl eq_refl eq_refl).
Defined.

(** C10. A version changed to the empty string is not refused: the version
    sub-step sends the bare ALTER EXTENSION ... UPDATE, with no TO clause,
    and has no error of its own, only the driver's if the server refuses
    the statement; with the schema unchanged this is the one statement
    Update sends to execute. A schema changed to the empty string, on the
    same resource, is refused by the schema sub-step before anything is sent. *)
Theorem update_version_to_empty (c : Client) (w : World) :
  featureSupported c featureExtension = true ->
  HasChange extVersionAttr (w_d w) = true ->
  snd (GetChange extVersionAttr (w_d w)) = EmptyString ->
  let bare := "ALTER EXTENSION " +:+ QuoteIdentifier (Id (w_d w)) +:+ " UPDATE" in
  (forall w', w_d w' = w_d w ->
     setExtVersion (DB c) w'
     = (Wrapf "Error updating extension version: {{err}}" <$> drvExec (DB c) (w_trace w') bare,
        record (EvExec bare) w'))
  /\ (HasChange extSchemaAttr (w_d w) = false ->
      exists rest,
        emits (resourcePostgreSQLExtensionUpdate c) w (EvLock :: EvExec bare :: rest)
        /\ Forall not_exec rest)
  /\ (forall w', w_d w' = w_d w ->
      HasChange extSchemaAttr (w_d w) = true ->
      snd (GetChange extSchemaAttr (w_d w)) = EmptyString ->
      setExtSchema (DB c) w' = (Some errEmptySchema, w')).
Proof.
  intros Hsup Hc Hn bare.
  assert (Hbare : reversion_statement (Id (w_d w)) None = bare).
  { unfold reversion_statement, clause. rewrite append_empty_r. reflexivity. }
  assert (Hstep : forall w', w_d w' = w_d w ->
            setExtVersion (DB c) w'
            = (Wrapf "Error updating extension version: {{err}}"
                 <$> drvExec (DB c) (w_trace w') bare,
               record (EvExec bare) w')).
  { intros w' Hd. rewrite setExtVersion_sent by (rewrite Hd; exact Hc).
    cbv zeta. rewrite Hd, Hn. cbn [String.eqb]. rewrite Hbare. reflexivity. }
  split; [exact Hstep|]. split.
  - intros Hs. unfold emits. rewrite (Update_run c w Hsup). cbv zeta.
    rewrite (setExtSchema_skipped (DB c) (record EvLock w) Hs). cbn [fst snd].
    rewrite (Hstep (record EvLock w) eq_refl). cbn [fst snd].
    destruct (drvExec _ _ _) as [e|]; cbn [fmap option_fmap option_map].
    + exists [EvUnlock]. split; [|repeat constructor].
      cbn [snd record w_trace]. rewrite <- !app_assoc. reflexivity.
    + destruct (ReadImpl_not_exec c (record (EvExec bare) (record EvLock w)))
        as (evs & E & F).
      exists (evs ++ [EvUnlock])%list. split.
      * unfold emits in E. cbn [snd record w_trace] in *. rewrite E.
        rewrite <- !app_assoc. reflexivity.
      * apply Forall_app. split; [exact F|repeat constructor].
  - intros w' Hd Hcs Hns. apply setExtSchema_empty; rewrite Hd; assumption.
Qed.

Lemma update_version_to_empty_hstore :
  let c := Examples.server Examples.healthy in
  let bare := "ALTER EXTENSION " +:+ dquote +:+ "hstore" +:+ dquote +:+ " UPDATE" in
  setExtVersion (DB c) (record EvLock Examples.to_empty_version)
  = (None, record (EvExec bare) (record EvLock Examples.to_empty_version))
  /\ (exists rest,
        emits (resourcePostgreSQLExtensionUpdate c) Examples.to_empty_version
          (EvLock :: EvExec bare :: rest)
        /\ Forall not_exec rest).
Proof.
  destruct (update_version_to_empty (Examples.server Examples.healthy)
              Examples.to_empty_version eq_refl eq_refl eq_refl) as (Hstep & Hrun & _).
  split.
  - exact (Hstep (record EvLock Examples.to_empty_version) eq_refl).
  - exact (Hrun eq_refl).
Defined.

(** ** What is sent to execute *)

Lemma emits_unique {A} (m : M A) (w : World) (evs evs' : list Event) :
  emits m w evs -> emits m w evs' -> evs = evs'.
Proof.
  unfold emits. intros E E'. rewrite E in E'.
  exact (app_inv_head _ _ _ E').
Qed.

Lemma not_exec_executes_for (d : ResourceData) (evs : list Event) :
  Forall not_exec evs -> Forall (executes_for d) evs.
Proof.
  intros H. eapply Forall_impl; [exact H|].
  intros [] He; try exact I. discriminate He.
Qed.

(** Each statement of the interface is fixed text and quoted identifiers. *)
Lemma interface_statement_quoted (d : ResourceData) (sql : string) :
  interface_statement d sql -> quoted_statement sql.
Proof.
  intros [-> | [-> | [-> | ->]]].
  - unfold create_statement.
    destruct (present extSchemaAttr d), (present extVersionAttr d);
      unfold clause; rewrite ?append_empty_l, ?append_empty_r; quoted.
  - unfold relocate_statement. quoted.
  - unfold reversion_statement. cbv zeta.
    destruct (String.eqb _ _); unfold clause; rewrite ?append_empty_r; quoted.
  - unfold drop_statement. quoted.
Qed.

Lemma Delete_emits (c : Client) (w : World) :
  featureSupported c featureExtension = true ->
  emits (resourcePostgreSQLExtensionDelete c) w
    [EvLock; EvExec (drop_statement (Id (w_d w))); EvUnlock].
Proof.
  intros Hsup. unfold emits. rewrite (Delete_run c w Hsup). cbv zeta.
  destruct (drvExec _ _ _); cbn [snd record with_data w_trace];
    rewrite <- !app_assoc; reflexivity.
Qed.

(** What Create, Update and Delete send to execute are statements of the
    interface for the resource data they were called with. *)
Lemma Create_executes (c : Client) (w : World) (evs : list Event) :
  emits (resourcePostgreSQLExtensionCreate c) w evs ->
  Forall (executes_for (w_d w)) evs.
Proof.
  intros Hev. destruct (featureSupported c featureExtension) eqn:Hsup.
  - destruct (Create_emits c w Hsup) as (rest & E & F).
    rewrite (emits_unique _ _ _ _ Hev E).
    constructor; [exact I|]. constructor; [left; reflexivity|].
    apply not_exec_executes_for, F.
  - assert (E : emits (resourcePostgreSQLExtensionCreate c) w []).
    { apply emits_nil. unfold resourcePostgreSQLExtensionCreate.
      rewrite Hsup. reflexivity. }
    rewrite (emits_unique _ _ _ _ Hev E). constructor.
Qed.

Lemma Update_executes (c : Client) (w : World) (evs : list Event) :
  emits (resourcePostgreSQLExtensionUpdate c) w evs ->
  Forall (executes_for (w_d w)) evs.
Proof.
  intros Hev. destruct (featureSupported c featureExtension) eqn:Hsup.
  - destruct (Update_emits c w Hsup) as (evs_s & evs_v & evs_r & E & Hs & Hv & F).
    rewrite (emits_unique _ _ _ _ Hev E).
    constructor; [exact I|]. repeat apply Forall_app_2.
    + destruct Hs as [-> | ->]; [constructor|].
      constructor; [|constructor]. right; left; reflexivity.
    + destruct Hv as [-> | ->]; [constructor|].
      constructor; [|constructor]. right; right; left; reflexivity.
    + apply not_exec_executes_for, F.
    + repeat constructor.
  - assert (E : emits (resourcePostgreSQLExtensionUpdate c) w []).
    { apply emits_nil. unfold resourcePostgreSQLExtensionUpdate.
      rewrite Hsup. reflexivity. }
    rewrite (emits_unique _ _ _ _ Hev E). constructor.
Qed.

Lemma Delete_executes (c : Client) (w : World) (evs : list Event) :
  emits (resourcePostgreSQLExtensionDelete c) w evs ->
  Forall (executes_for (w_d w)) evs.
Proof.
  intros Hev. destruct (featureSupported c featureExtension) eqn:Hsup.
  - rewrite (emits_unique _ _ _ _ Hev (Delete_emits c w Hsup)).
    constructor; [exact I|]. constructor; [|repeat constructor].
    right; right; right; reflexivity.
  - assert (E : emits (resourcePostgreSQLExtensionDelete c) w []).
    { apply emits_nil. unfold resourcePostgreSQLExtensionDelete.
      rewrite Hsup. reflexivity. }
    rewrite (emits_unique _ _ _ _ Hev E). constructor.
Qed.

(** C1. Whatever the resource data and whatever the server answers, every
    statement a handler sends to execute is put together from the fixed
    texts of the handler and from identifiers that went through
    [QuoteIdentifier], and the two queries are fixed texts that take the
    identity as a bound parameter. More precisely, what Create, Update and
    Delete send to execute are the creation, relocation, upgrade and drop
    statements for the name, schema and version of the resource data, each
    of these strings occurring quoted and nowhere else. A quoted
    identifier, however it is followed and whatever characters it holds, is
    read back by the lexer as that one identifier (up to its first NUL) and
    nothing more. *)
Theorem identifiers_only_quoted (c : Client) :
  (only injection_free (resourcePostgreSQLExtensionCreate c)
   /\ only injection_free (resourcePostgreSQLExtensionExists c)
   /\ only injection_free (resourcePostgreSQLExtensionRead c)
   /\ only injection_free (resourcePostgreSQLExtensionUpdate c)
   /\ only injection_free (resourcePostgreSQLExtensionDelete c))
  /\ (forall w evs,
        emits (resourcePostgreSQLExtensionCreate c) w evs
        \/ emits (resourcePostgreSQLExtensionUpdate c) w evs
        \/ emits (resourcePostgreSQLExtensionDelete c) w evs ->
        Forall (executes_for (w_d w)) evs)
  /\ (forall d sql, interface_statement d sql -> quoted_statement sql)
  /\ (forall ident rest : string,
         starts_quoted rest = false ->
         scan_quoted (QuoteIdentifier ident +:+ rest) = Some (truncate_nul ident, rest)).
Proof.
  split; [|split; [|split]].
  - repeat split.
    + apply Create_injection_free.
    + apply Exists_injection_free.
    + apply Read_injection_free.
    + apply Update_injection_free.
    + apply Delete_injection_free.
  - intros w evs [H | [H | H]].
    + exact (Create_executes c w evs H).
    + exact (Update_executes c w evs H).
    + exact (Delete_executes c w evs H).
  - exact interface_statement_quoted.
  - apply scan_quoted_QuoteIdentifier.
Qed.

(** A name made to break out of its quotes stays one identifier. *)
Lemma identifiers_only_quoted_hostile :
  let hostile := "x" +:+ dquote +:+ "; DROP TABLE users; --" in
  let c := Examples.server Examples.healthy in
  let w := with_data (SetId hostile (w_d Examples.unchanged)) Examples.unchanged in
  only injection_free (resourcePostgreSQLExtensionDelete c)
  /\ Forall (executes_for (w_d w)) [EvLock; EvExec (drop_statement hostile); EvUnlock]
  /\ quoted_statement (drop_statement hostile)
  /\ scan_quoted (QuoteIdentifier hostile +:+ " SCHEMA " +:+ QuoteIdentifier "app")
     = Some (hostile, " SCHEMA " +:+ QuoteIdentifier "app").
Proof.
  intros hostile c w.
  destruct (identifiers_only_quoted c) as [(_ & _ & _ & _ & Hdel) (Hexec & Hq & Hscan)].
  split; [exact Hdel|]. split; [|split].
  - apply (Hexec w). right; right. reflexivity.
  - apply (Hq (w_d w)). right; right; right. reflexivity.
  - exact (Hscan hostile (" SCHEMA " +:+ QuoteIdentifier "app") eq_refl).
Defined.

(** ** The catalog lock *)

Ltac not_lock_steps :=
  only_steps;
  first [ apply only_emit; reflexivity
        | apply only_dbExec; reflexivity
        | apply only_dbQueryRow; reflexivity ].

Lemma ReadImpl_not_lock (c : Client) : only not_lock (resourcePostgreSQLExtensionReadImpl c).
Proof. apply ReadImpl_only; intros; reflexivity. Qed.

Lemma setExtSchema_not_lock (db : Driver) : only not_lock (setExtSchema db).
Proof. apply setExtSchema_only. intros; reflexivity. Qed.

Lemma setExtVersion_not_lock (db : Driver) : only not_lock (setExtVersion db).
Proof. apply setExtVersion_only. intros; reflexivity. Qed.

(** C8. On a server with extensions, whatever the resource data and
    whatever the server answers, Create, Update, Delete and Exists begin by
    taking the catalog lock exclusively and end by giving it back, Read
    begins by taking it shared and ends by giving that back, and nothing in
    between touches the lock: all SQL of a handler is sent while it holds
    the lock, and no way out of a handler keeps it. *)
Theorem catalog_lock_brackets (c : Client) (w : World) :
  featureSupported c featureExtension = true ->
  (exists evs, emits (resourcePostgreSQLExtensionCreate c) w (EvLock :: evs ++ [EvUnlock])
               /\ Forall not_lock evs)
  /\ (exists evs, emits (resourcePostgreSQLExtensionUpdate c) w (EvLock :: evs ++ [EvUnlock])
                  /\ Forall not_lock evs)
  /\ (exists evs, emits (resourcePostgreSQLExtensionDelete c) w (EvLock :: evs ++ [EvUnlock])
                  /\ Forall not_lock evs)
  /\ (exists evs, emits (resourcePostgreSQLExtensionExists c) w (EvLock :: evs ++ [EvUnlock])
                  /\ Forall not_lock evs)
  /\ (exists evs, emits (resourcePostgreSQLExtensionRead c) w (EvRLock :: evs ++ [EvRUnlock])
                  /\ Forall not_lock evs).
Proof.
  intros Hsup.
  unfold resourcePostgreSQLExtensionCreate, resourcePostgreSQLExtensionUpdate,
    resourcePostgreSQLExtensionDelete, resourcePostgreSQLExtensionExists,
    resourcePostgreSQLExtensionRead.
  rewrite Hsup. cbn [negb].
  split; [|split; [|split; [|split]]].
  - apply Lock_defer_Unlock_bracket.
    apply only_bind; [apply only_read_d|intros name]. cbv zeta.
    apply only_bind; [apply only_read_d|intros vs].
    apply only_bind; [apply only_read_d|intros vv].
    apply only_bind; [apply only_dbExec; reflexivity|].
    intros [e|]; [apply only_ret|].
    apply only_bind; [apply only_write_d|intros _; apply ReadImpl_not_lock].
  - apply Lock_defer_Unlock_bracket.
    apply only_bind; [apply setExtSchema_not_lock|intros [e|]; [apply only_ret|]].
    apply only_bind; [apply setExtVersion_not_lock|intros [e|]; [apply only_ret|]].
    apply ReadImpl_not_lock.
  - apply Lock_defer_Unlock_bracket. not_lock_steps.
  - apply Lock_defer_Unlock_bracket. not_lock_steps.
  - apply RLock_defer_RUnlock_bracket, ReadImpl_not_lock.
Qed.

Lemma catalog_lock_brackets_refused :
  let c := Examples.server Examples.refusing in
  let w := Examples.to_move_and_upgrade in
  (exists evs, emits (resourcePostgreSQLExtensionCreate c) w (EvLock :: evs ++ [EvUnlock])
               /\ Forall not_lock evs)
  /\ (exists evs, emits (resourcePostgreSQLExtensionUpdate c) w (EvLock :: evs ++ [EvUnlock])
                  /\ Forall not_lock evs)
  /\ (exists evs, emits (resourcePostgreSQLExtensionDelete c) w (EvLock :: evs ++ [EvUnlock])
                  /\ Forall not_lock evs)
  /\ (exists evs, emits (resourcePostgreSQLExtensionExists c) w (EvLock :: evs ++ [EvUnlock])
                  /\ Forall not_lock evs)
  /\ (exists evs, emits (resourcePostgreSQLExtensionRead c) w (EvRLock :: evs ++ [EvRUnlock])
                  /\ Forall not_lock evs).
Proof.
  exact (catalog_lock_brackets (Examples.server Examples.refusing)
           Examples.to_move_and_upgrade eq_refl).
Defined.


(** * Further properties of the handlers *)

(** ** Before the gate lets a handler in *)

Lemma Create_gated (c : Client) (w : World) :
  featureSupported c featureExtension = false ->
  resourcePostgreSQLExtensionCreate c w = (Some (errNotSupported c), w).
Proof. intros H. unfold resourcePostgreSQLExtensionCreate. rewrite H. reflexivity. Qed.

Lemma Read_gated (c : Client) (w : World) :
  featureSupported c featureExtension = false ->
  resourcePostgreSQLExtensionRead c w = (Some (errNotSupported c), w).
Proof. intros H. unfold resourcePostgreSQLExtensionRead. rewrite H. reflexivity. Qed.

Lemma Update_gated (c : Client) (w : World) :
  featureSupported c featureExtension = false ->
  resourcePostgreSQLExtensionUpdate c w = (Some (errNotSupported c), w).
Proof. intros H. unfold resourcePostgreSQLExtensionUpdate. rewrite H. reflexivity. Qed.

Lemma Delete_gated (c : Client) (w : World) :
  featureSupported c featureExtension = false ->
  resourcePostgreSQLExtensionDelete c w = (Some (errNotSupported c), w).
Proof. intros H. unfold resourcePostgreSQLExtensionDelete. rewrite H. reflexivity. Qed.

Lemma Exists_gated (c : Client) (w : World) :
  featureSupported c featureExtension = false ->
  resourcePostgreSQLExtensionExists c w = ((false, Some (errNotSupported c)), w).
Proof. intros H. unfold resourcePostgreSQLExtensionExists. rewrite H. reflexivity. Qed.

(** ** The paths that only read *)

(** X1. Read, Exists and the read that finishes Create and Update never
    send a statement to execute, whatever the resource data and whatever
    the server answers: all they send is a query. *)
Theorem read_paths_never_execute (c : Client) :
  only not_exec (resourcePostgreSQLExtensionRead c)
  /\ only not_exec (resourcePostgreSQLExtensionExists c)
  /\ only not_exec (resourcePostgreSQLExtensionReadImpl c).
Proof.
  split; [|split].
  - unfold resourcePostgreSQLExtensionRead, RLock_defer_RUnlock.
    destruct (negb _); [apply only_ret|].
    apply only_bind; [apply only_emit; reflexivity|intros _].
    apply only_bind; [apply ReadImpl_not_exec|intros r].
    apply only_bind; [apply only_emit; reflexivity|intros _; apply only_ret].
  - unfold resourcePostgreSQLExtensionExists, Lock_defer_Unlock.
    only_steps;
      first [apply only_emit; reflexivity | apply only_dbQueryRow; reflexivity].
  - apply ReadImpl_not_exec.
Qed.

(** ** The errors a handler hands back *)

Lemma ReadImpl_error (c : Client) (w : World) (err : error) :
  fst (resourcePostgreSQLExtensionReadImpl c w) = Some err ->
  exists e, err = Wrapf "Error reading extension: {{err}}" e
            /\ is_ErrNoRows e = false
            /\ snd (resourcePostgreSQLExtensionReadImpl c w)
               = record (EvQueryRow queryRead [Id (w_d w)]) w.
Proof.
  rewrite ReadImpl_run. cbv zeta.
  destruct (Scan3 _) as [[[a b] v] [e|]]; [destruct (is_ErrNoRows e) eqn:He|];
    cbn [fst snd]; intros H; try discriminate H.
  injection H as <-. exists e. auto.
Qed.

Lemma setExtSchema_error (db : Driver) (w : World) (err : error) :
  fst (setExtSchema db w) = Some err ->
  (err = errEmptySchema \/ wrapped "Error updating extension SCHEMA: {{err}}" err)
  /\ w_d (snd (setExtSchema db w)) = w_d w.
Proof.
  rewrite setExtSchema_run. cbv zeta.
  destruct (negb _); [discriminate|].
  destruct (String.eqb _ _); cbn [fst snd].
  - intros H. injection H as <-. auto.
  - destruct (drvExec _ _ _) as [e|]; cbn [fmap option_fmap option_map]; [|discriminate].
    intros H. injection H as <-. split; [right; exists e; reflexivity|reflexivity].
Qed.

Lemma setExtVersion_error (db : Driver) (w : World) (err : error) :
  fst (setExtVersion db w) = Some err ->
  wrapped "Error updating extension version: {{err}}" err
  /\ w_d (snd (setExtVersion db w)) = w_d w.
Proof.
  rewrite setExtVersion_run. cbv zeta.
  destruct (negb _); [discriminate|]. cbn [fst snd].
  destruct (drvExec _ _ _) as [e|]; cbn [fmap option_fmap option_map]; [|discriminate].
  intros H. injection H as <-. split; [exists e; reflexivity|reflexivity].
Qed.

Lemma Create_error (c : Client) (w : World) (err : error) :
  fst (resourcePostgreSQLExtensionCreate c w) = Some err ->
  let after := w_d (snd (resourcePostgreSQLExtensionCreate c w)) in
  (err = errNotSupported c /\ after = w_d w)
  \/ (wrapped "Error creating extension: {{err}}" err /\ after = w_d w)
  \/ (wrapped "Error reading extension: {{err}}" err
      /\ after = SetId (Get extNameAttr (w_d w)) (w_d w)).
Proof.
  destruct (featureSupported c featureExtension) eqn:Hsup.
  - rewrite (Create_run c w Hsup). cbv zeta.
    destruct (drvExec _ _ _) as [e|]; cbn [fst snd].
    + intros H. injection H as <-. right; left. split; [exists e|]; reflexivity.
    + intros H. destruct (ReadImpl_error c _ err H) as (e & -> & _ & Hw).
      right; right. split; [exists e; reflexivity|]. rewrite Hw. reflexivity.
  - rewrite (Create_gated c w Hsup). cbn [fst snd].
    intros H. injection H as <-. left. split; reflexivity.
Qed.

Lemma Read_error (c : Client) (w : World) (err : error) :
  fst (resourcePostgreSQLExtensionRead c w) = Some err ->
  (err = errNotSupported c \/ wrapped "Error reading extension: {{err}}" err)
  /\ w_d (snd (resourcePostgreSQLExtensionRead c w)) = w_d w.
Proof.
  destruct (featureSupported c featureExtension) eqn:Hsup.
  - rewrite (Read_run c w Hsup). cbv zeta. cbn [fst snd].
    intros H. destruct (ReadImpl_error c _ err H) as (e & -> & _ & Hw).
    split; [right; exists e; reflexivity|]. rewrite Hw. reflexivity.
  - rewrite (Read_gated c w Hsup). cbn [fst snd].
    intros H. injection H as <-. split; [left|]; reflexivity.
Qed.

Lemma Delete_error (c : Client) (w : World) (err : error) :
  fst (resourcePostgreSQLExtensionDelete c w) = Some err ->
  (err = errNotSupported c \/ wrapped "Error deleting extension: {{err}}" err)
  /\ w_d (snd (resourcePostgreSQLExtensionDelete c w)) = w_d w.
Proof.
  destruct (featureSupported c featureExtension) eqn:Hsup.
  - rewrite (Delete_run c w Hsup). cbv zeta.
    destruct (drvExec _ _ _) as [e|]; cbn [fst snd]; [|discriminate].
    intros H. injection H as <-. split; [right; exists e; reflexivity|reflexivity].
  - rewrite (Delete_gated c w Hsup). cbn [fst snd].
    intros H. injection H as <-. split; [left|]; reflexivity.
Qed.

Lemma Update_error (c : Client) (w : World) (err : error) :
  fst (resourcePostgreSQLExtensionUpdate c w) = Some err ->
  (err = errNotSupported c
   \/ err = errEmptySchema
   \/ wrapped "Error updating extension SCHEMA: {{err}}" err
   \/ wrapped "Error updating extension version: {{err}}" err
   \/ wrapped "Error reading extension: {{err}}" err)
  /\ w_d (snd (resourcePostgreSQLExtensionUpdate c w)) = w_d w.
Proof.
  destruct (featureSupported c featureExtension) eqn:Hsup.
  - rewrite (Update_run c w Hsup). cbv zeta.
    destruct (fst (setExtSchema (DB c) (record EvLock w))) as [e1|] eqn:H1.
    { cbn [fst snd]. intros H. injection H as <-.
      destruct (setExtSchema_error _ _ _ H1) as [[-> | Hw] Hd];
        (split; [auto|exact Hd]). }
    destruct (setExtSchema_emits (DB c) (record EvLock w)) as (_ & _ & _ & Hd1).
    destruct (fst (setExtVersion (DB c) _)) as [e2|] eqn:H2.
    { cbn [fst snd]. intros H. injection H as <-.
      destruct (setExtVersion_error _ _ _ H2) as [Hw Hd].
      split; [auto|]. cbn [record w_d]. rewrite Hd, Hd1. reflexivity. }
    destruct (setExtVersion_emits (DB c) (snd (setExtSchema (DB c) (record EvLock w))))
      as (_ & _ & _ & Hd2).
    cbn [fst snd]. intros H. destruct (ReadImpl_error c _ err H) as (e & -> & _ & Hw).
    split; [right; right; right; right; exists e; reflexivity|].
    rewrite Hw. cbn [record w_d]. rewrite Hd2, Hd1. reflexivity.
  - rewrite (Update_gated c w Hsup). cbn [fst snd].
    intros H. injection H as <-. split; [left|]; reflexivity.
Qed.

Lemma wrapped_not_ErrNoRows (format : string) (err : error) :
  wrapped format err -> err <> ErrNoRows.
Proof. intros [e ->]. discriminate. Qed.

(** X2. An error that Create, Read, Update or Delete hands back is the
    not-supported error, the empty-schema error (Update only), or an error
    of the driver wrapped with the text of the step that met it: creating
    or reading for Create, reading for Read, SCHEMA, version or reading for
    Update, deleting for Delete. In particular none of them ever hands
    back sql.ErrNoRows itself. *)
Theorem handler_errors_are_wrapped (c : Client) (w : World) (err : error) :
  (fst (resourcePostgreSQLExtensionCreate c w) = Some err ->
     err = errNotSupported c
     \/ wrapped "Error creating extension: {{err}}" err
     \/ wrapped "Error reading extension: {{err}}" err)
  /\ (fst (resourcePostgreSQLExtensionRead c w) = Some err ->
     err = errNotSupported c \/ wrapped "Error reading extension: {{err}}" err)
  /\ (fst (resourcePostgreSQLExtensionUpdate c w) = Some err ->
     err = errNotSupported c
     \/ err = errEmptySchema
     \/ wrapped "Error updating extension SCHEMA: {{err}}" err
     \/ wrapped "Error updating extension version: {{err}}" err
     \/ wrapped "Error reading extension: {{err}}" err)
  /\ (fst (resourcePostgreSQLExtensionDelete c w) = Some err ->
     err = errNotSupported c \/ wrapped "Error deleting extension: {{err}}" err)
  /\ (fst (resourcePostgreSQLExtensionCreate c w) = Some err
      \/ fst (resourcePostgreSQLExtensionRead c w) = Some err
      \/ fst (resourcePostgreSQLExtensionUpdate c w) = Some err
      \/ fst (resourcePostgreSQLExtensionDelete c w) = Some err ->
      err <> ErrNoRows).
Proof.
  assert (Hc := Create_error c w err). assert (Hr := Read_error c w err).
  assert (Hu := Update_error c w err). assert (Hd := Delete_error c w err).
  cbv zeta in Hc.
  split; [|split; [|split; [|split]]].
  - intros H. destruct (Hc H) as [[? _] | [[? _] | [? _]]]; auto.
  - intros H. exact (proj1 (Hr H)).
  - intros H. exact (proj1 (Hu H)).
  - intros H. exact (proj1 (Hd H)).
  - intros [H | [H | [H | H]]].
    + destruct (Hc H) as [[-> _] | [[Hw _] | [Hw _]]];
        [discriminate | exact (wrapped_not_ErrNoRows _ _ Hw)..].
    + destruct (Hr H) as [[-> | Hw] _];
        [discriminate | exact (wrapped_not_ErrNoRows _ _ Hw)].
    + destruct (Hu H) as [[-> | [-> | [Hw | [Hw | Hw]]]] _];
        [discriminate | discriminate | exact (wrapped_not_ErrNoRows _ _ Hw)..].
    + destruct (Hd H) as [[-> | Hw] _];
        [discriminate | exact (wrapped_not_ErrNoRows _ _ Hw)].
Qed.

Lemma handler_errors_are_wrapped_refused :
  let c := Examples.server Examples.refusing in
  let w := Examples.to_move_and_upgrade in
  let denied := DriverError "permission denied" in
  (Wrapf "Error updating extension SCHEMA: {{err}}" denied = errNotSupported c
   \/ Wrapf "Error updating extension SCHEMA: {{err}}" denied = errEmptySchema
   \/ wrapped "Error updating extension SCHEMA: {{err}}"
        (Wrapf "Error updating extension SCHEMA: {{err}}" denied)
   \/ wrapped "Error updating extension version: {{err}}"
        (Wrapf "Error updating extension SCHEMA: {{err}}" denied)
   \/ wrapped "Error reading extension: {{err}}"
        (Wrapf "Error updating extension SCHEMA: {{err}}" denied))
  /\ Wrapf "Error deleting extension: {{err}}" denied <> ErrNoRows.
Proof.
  split.
  - exact (proj1 (proj2 (proj2
      (handler_errors_are_wrapped (Examples.server Examples.refusing)
         Examples.to_move_and_upgrade
         (Wrapf "Error updating extension SCHEMA: {{err}}"
            (DriverError "permission denied"))))) eq_refl).
  - apply (proj2 (proj2 (proj2 (proj2
      (handler_errors_are_wrapped (Examples.server Examples.refusing)
         Examples.to_move_and_upgrade
         (Wrapf "Error deleting extension: {{err}}"
            (DriverError "permission denied"))))))).
    right; right; right. reflexivity.
Defined.

(** X3. A handler that hands back an error has not touched the resource
    data, with one exception: when Create's statement went through and the
    read after it failed, the identity is already set to the name. Exists
    never touches the resource data at all. *)
Theorem failed_handler_keeps_data (c : Client) (w : World) (err : error) :
  (fst (resourcePostgreSQLExtensionRead c w) = Some err ->
     w_d (snd (resourcePostgreSQLExtensionRead c w)) = w_d w)
  /\ (fst (resourcePostgreSQLExtensionUpdate c w) = Some err ->
     w_d (snd (resourcePostgreSQLExtensionUpdate c w)) = w_d w)
  /\ (fst (resourcePostgreSQLExtensionDelete c w) = Some err ->
     w_d (snd (resourcePostgreSQLExtensionDelete c w)) = w_d w)
  /\ (fst (resourcePostgreSQLExtensionCreate c w) = Some err ->
     w_d (snd (resourcePostgreSQLExtensionCreate c w)) = w_d w
     \/ (wrapped "Error reading extension: {{err}}" err
         /\ w_d (snd (resourcePostgreSQLExtensionCreate c w))
            = SetId (Get extNameAttr (w_d w)) (w_d w)))
  /\ w_d (snd (resourcePostgreSQLExtensionExists c w)) = w_d w.
Proof.
  split; [|split; [|split; [|split]]].
  - intros H. exact (proj2 (Read_error c w err H)).
  - intros H. exact (proj2 (Update_error c w err H)).
  - intros H. exact (proj2 (Delete_error c w err H)).
  - intros H. destruct (Create_error c w err H) as [[_ ?] | [[_ ?] | ?]]; auto.
  - destruct (featureSupported c featureExtension) eqn:Hsup.
    + rewrite (Exists_run c w Hsup). cbv zeta.
      destruct (Scan1 _) as [a [e|]]; [destruct (is_ErrNoRows e)|]; reflexivity.
    + rewrite (Exists_gated c w Hsup). reflexivity.
Qed.

Lemma failed_handler_keeps_data_refused :
  let c := Examples.server Examples.refusing in
  let w := Examples.to_move_and_upgrade in
  w_d (snd (resourcePostgreSQLExtensionRead c w)) = w_d w
  /\ w_d (snd (resourcePostgreSQLExtensionUpdate c w)) = w_d w
  /\ w_d (snd (resourcePostgreSQLExtensionDelete c w)) = w_d w
  /\ (w_d (snd (resourcePostgreSQLExtensionCreate c w)) = w_d w
      \/ (wrapped "Error reading extension: {{err}}"
            (Wrapf "Error creating extension: {{err}}" (DriverError "permission denied"))
          /\ w_d (snd (resourcePostgreSQLExtensionCreate c w))
             = SetId (Get extNameAttr (w_d w)) (w_d w))).
Proof.
  intros c w. split; [|split; [|split]].
  - exact (proj1 (failed_handler_keeps_data c w
             (Wrapf "Error reading extension: {{err}}" (DriverError "permission denied")))
             eq_refl).
  - exact (proj1 (proj2 (failed_handler_keeps_data c w
             (Wrapf "Error updating extension SCHEMA: {{err}}"
                (DriverError "permission denied")))) eq_refl).
  - exact (proj1 (proj2 (proj2 (failed_handler_keeps_data c w
             (Wrapf "Error deleting extension: {{err}}"
                (DriverError "permission denied"))))) eq_refl).
  - exact (proj1 (proj2 (proj2 (proj2 (failed_handler_keeps_data c w
             (Wrapf "Error creating extension: {{err}}"
                (DriverError "permission denied")))))) eq_refl).
Defined.

(** ** Exists *)

(** X4. On a server with extensions Exists takes the lock, sends the one
    probe with the identity as its parameter, and gives the lock back. It
    answers true exactly when the scan of the row reports no error, and
    then without an error; an error it hands back is the driver's own,
    unwrapped, and never sql.ErrNoRows. *)
Theorem exists_outcomes (c : Client) (w : World) :
  featureSupported c featureExtension = true ->
  let probe := drvQueryRow (DB c) (w_trace w ++ [EvLock]) queryExists [Id (w_d w)] in
  let r := fst (resourcePostgreSQLExtensionExists c w) in
  emits (resourcePostgreSQLExtensionExists c) w
    [EvLock; EvQueryRow queryExists [Id (w_d w)]; EvUnlock]
  /\ (fst r = true <-> snd (Scan1 probe) = None)
  /\ (fst r = true -> snd r = None)
  /\ (forall e, snd r = Some e -> snd (Scan1 probe) = Some e /\ e <> ErrNoRows).
Proof.
  intros Hsup probe r. subst r. unfold emits.
  rewrite (Exists_run c w Hsup). cbv zeta. cbn [record w_d w_trace]. fold probe.
  destruct (Scan1 probe) as [a [e|]]; [destruct (is_ErrNoRows e) eqn:He|];
    cbn [fst snd record w_trace]; rewrite <- !app_assoc;
    (split; [reflexivity|]); (split; [split; congruence|]);
    (split; [congruence|]); intros e' He'; try discriminate He'.
  injection He' as <-. split; [reflexivity|].
  intros ->. discriminate He.
Qed.

Lemma exists_outcomes_hstore :
  let c := Examples.server Examples.healthy in
  let w := Examples.unchanged in
  emits (resourcePostgreSQLExtensionExists c) w
    [EvLock; EvQueryRow queryExists ["hstore"]; EvUnlock]
  /\ fst (resourcePostgreSQLExtensionExists c w) = (true, None)
  /\ snd (Scan1 (drvQueryRow (DB (Examples.server Examples.refusing)) [EvLock]
                   queryExists ["hstore"]))
     = Some (DriverError "permission denied").
Proof.
  destruct (exists_outcomes (Examples.server Examples.healthy) Examples.unchanged eq_refl)
    as (Htrace & Htrue & Hnil & _).
  destruct (exists_outcomes (Examples.server Examples.refusing) Examples.unchanged eq_refl)
    as (_ & _ & _ & Herr).
  split; [exact Htrace|]. split.
  - apply injective_projections; [exact (proj2 Htrue eq_refl)|].
    exact (Hnil (proj2 Htrue eq_refl)).
  - exact (proj1 (Herr (DriverError "permission denied") eq_refl)).
Defined.

(** ** What a handler leaves alone in the resource data *)

Section KeepsPlan.










End KeepsPlan.












(** ** What Read writes *)

Lemma Get_Set_eq (key value : string) (d : ResourceData) :
  Get key (Set_ key value d) = value.
Proof. unfold Get, Set_. cbn. rewrite lookup_insert_eq. reflexivity. Qed.

Lemma Get_Set_ne (key key' value : string) (d : ResourceData) :
  key <> key' -> Get key' (Set_ key value d) = Get key' d.
Proof.
  intros Hne. unfold Get, Set_. cbn.
  rewrite lookup_insert_ne by exact Hne. reflexivity.
Qed.

Lemma Get_SetId (key v : string) (d : ResourceData) : Get key (SetId v d) = Get key d.
Proof. reflexivity. Qed.

(** The resource data once a row was read into it. *)
Lemma ReadImpl_found (c : Client) (w : World) (a b v : string) :
  drvQueryRow (DB c) (w_trace w) queryRead [Id (w_d w)] = RowCols [a; b; v] ->
  resourcePostgreSQLExtensionReadImpl c w
  = (None,
     with_data
       (SetId a (Set_ extVersionAttr v (Set_ extSchemaAttr b (Set_ extNameAttr a (w_d w)))))
       (record (EvQueryRow queryRead [Id (w_d w)]) w)).
Proof. intros Hrow. rewrite ReadImpl_run. cbv zeta. rewrite Hrow. reflexivity. Qed.

(** X6. When the full read finds a row, Read returns no error and the
    resource data holds what the catalog says, not what was planned: the
    identity and the name are the row's extname, the schema its nspname,
    the version its extversion. No other attribute reads differently. *)
Theorem read_takes_the_row (c : Client) (w : World) (a b v : string) :
  featureSupported c featureExtension = true ->
  drvQueryRow (DB c) (w_trace w ++ [EvRLock]) queryRead [Id (w_d w)] = RowCols [a; b; v] ->
  let d' := w_d (snd (resourcePostgreSQLExtensionRead c w)) in
  fst (resourcePostgreSQLExtensionRead c w) = None
  /\ Id d' = a
  /\ Get extNameAttr d' = a
  /\ Get extSchemaAttr d' = b
  /\ Get extVersionAttr d' = v
  /\ (forall key, key <> extNameAttr -> key <> extSchemaAttr -> key <> extVersionAttr ->
        Get key d' = Get key (w_d w)).
Proof.
  intros Hsup Hrow. cbv zeta. rewrite (Read_run c w Hsup). cbv zeta.
  rewrite (ReadImpl_found c (record EvRLock w) a b v Hrow).
  cbn [fst snd record with_data w_d].
  split; [reflexivity|]. split; [reflexivity|]. rewrite !Get_SetId.
  split; [|split; [|split]].
  - rewrite !Get_Set_ne by discriminate. apply Get_Set_eq.
  - rewrite Get_Set_ne by discriminate. apply Get_Set_eq.
  - apply Get_Set_eq.
  - intros key Hn Hs Hv. rewrite Get_SetId, !Get_Set_ne by congruence. reflexivity.
Qed.

Lemma read_takes_the_row_hstore :
  let c := Examples.server Examples.healthy in
  let d' := w_d (snd (resourcePostgreSQLExtensionRead c MoreExamples.to_move)) in
  fst (resourcePostgreSQLExtensionRead c MoreExamples.to_move) = None
  /\ Id d' = "hstore"
  /\ Get extNameAttr d' = "hstore"
  /\ Get extSchemaAttr d' = "public"
  /\ Get extVersionAttr d' = "1.0"
  /\ (forall key, key <> extNameAttr -> key <> extSchemaAttr -> key <> extVersionAttr ->
        Get key d' = Get key (w_d MoreExamples.to_move)).
Proof.
  exact (read_takes_the_row (Examples.server Examples.healthy) MoreExamples.to_move
           "hstore" "public" "1.0" eq_refl eq_refl).
Defined.

(** Writing the same row a second time changes nothing. *)
Lemma Set_Set_row (a b v : string) (d : ResourceData) :
  SetId a
    (Set_ extVersionAttr v (Set_ extSchemaAttr b (Set_ extNameAttr a
       (SetId a
          (Set_ extVersionAttr v (Set_ extSchemaAttr b (Set_ extNameAttr a d)))))))
  = SetId a (Set_ extVersionAttr v (Set_ extSchemaAttr b (Set_ extNameAttr a d))).
Proof.
  unfold Set_, SetId. cbn. f_equal.
  apply map_eq. intros k.
  destruct (decide (extVersionAttr = k)) as [<-|Hv].
  { rewrite !lookup_insert_eq. reflexivity. }
  rewrite (lookup_insert_ne _ extVersionAttr k) by exact Hv.
  destruct (decide (extSchemaAttr = k)) as [<-|Hs].
  { rewrite !lookup_insert_eq. rewrite lookup_insert_ne by discriminate.
    rewrite lookup_insert_eq. reflexivity. }
  rewrite (lookup_insert_ne _ extSchemaAttr k) by exact Hs.
  destruct (decide (extNameAttr = k)) as [<-|Hn].
  { rewrite !lookup_insert_eq. rewrite !lookup_insert_ne by discriminate.
    rewrite lookup_insert_eq. reflexivity. }
  rewrite !lookup_insert_ne by assumption. reflexivity.
Qed.

(** X7. Reading twice is reading once: when a Read found a row and the
    Read after it, which asks for the name just read, finds the same row,
    the second Read returns no error and leaves the resource data exactly
    as the first one left it. *)
Theorem read_twice (c : Client) (w : World) (a b v : string) :
  featureSupported c featureExtension = true ->
  let read := resourcePostgreSQLExtensionRead c in
  let w1 := snd (read w) in
  drvQueryRow (DB c) (w_trace w ++ [EvRLock]) queryRead [Id (w_d w)] = RowCols [a; b; v] ->
  drvQueryRow (DB c) (w_trace w1 ++ [EvRLock]) queryRead [a] = RowCols [a; b; v] ->
  fst (read w1) = None /\ w_d (snd (read w1)) = w_d w1.
Proof.
  intros Hsup read w1 Hrow Hrow1.
  assert (Hw1 : w_d w1
                = SetId a (Set_ extVersionAttr v
                             (Set_ extSchemaAttr b (Set_ extNameAttr a (w_d w))))).
  { subst w1 read. rewrite (Read_run c w Hsup). cbv zeta.
    rewrite (ReadImpl_found c (record EvRLock w) a b v Hrow). reflexivity. }
  subst read. rewrite (Read_run c w1 Hsup). cbv zeta.
  rewrite (ReadImpl_found c (record EvRLock w1) a b v).
  - cbn [fst snd record with_data w_d]. split; [reflexivity|].
    rewrite Hw1. apply Set_Set_row.
  - cbn [record w_d w_trace]. rewrite Hw1. exact Hrow1.
Qed.

Lemma read_twice_hstore :
  let read := resourcePostgreSQLExtensionRead (Examples.server Examples.healthy) in
  let w1 := snd (read MoreExamples.to_move) in
  fst (read w1) = None /\ w_d (snd (read w1)) = w_d w1.
Proof.
  exact (read_twice (Examples.server Examples.healthy) MoreExamples.to_move
           "hstore" "public" "1.0" eq_refl eq_refl eq_refl).
Defined.

(** ** How Create ends *)

(** X8. On a server with extensions: when the server refuses the CREATE
    statement, Create hands back the wrapped error without reading the
    catalog and without touching the resource data; when the server takes
    it, Create reads the catalog back under the name just created (not
    under the identity it was called with); and when that read finds no
    row, Create returns no error although the identity it leaves is empty. *)
Theorem create_outcomes (c : Client) (w : World) :
  featureSupported c featureExtension = true ->
  let d := w_d w in
  let name := Get extNameAttr d in
  let create := resourcePostgreSQLExtensionCreate c in
  let sql := create_statement name (present extSchemaAttr d) (present extVersionAttr d) in
  let locked := (w_trace w ++ [EvLock])%list in
  (forall e, drvExec (DB c) locked sql = Some e ->
     create w = (Some (Wrapf "Error creating extension: {{err}}" e),
                 record EvUnlock (record (EvExec sql) (record EvLock w))))
  /\ (drvExec (DB c) locked sql = None ->
      exists log,
        emits create w
          (EvLock :: EvExec sql :: EvQueryRow queryRead [name] :: log ++ [EvUnlock])
        /\ Forall quiet log)
  /\ (drvExec (DB c) locked sql = None ->
      drvQueryRow (DB c) (locked ++ [EvExec sql]) queryRead [name] = RowErr ErrNoRows ->
      fst (create w) = None /\ Id (w_d (snd (create w))) = EmptyString).
Proof.
  intros Hsup d name create sql locked. subst create.
  split; [|split].
  - intros e He. rewrite (Create_run c w Hsup). cbv zeta.
    cbn [record w_trace]. fold d name sql locked. rewrite He. reflexivity.
  - intros Hok. unfold emits. rewrite (Create_run c w Hsup). cbv zeta.
    cbn [record w_trace]. fold d name sql locked. rewrite Hok.
    set (w1 := with_data _ _).
    destruct (ReadImpl_emits c w1) as (log & E & F).
    exists log. split; [|exact F].
    unfold emits in E. cbn [snd record w_trace]. rewrite E.
    subst w1. cbn [with_data record w_d w_trace SetId Id rd_id].
    repeat first [rewrite <- app_assoc | progress cbn [app]]. reflexivity.
  - intros Hok Hgone. rewrite (Create_run c w Hsup). cbv zeta.
    cbn [record w_trace]. fold d name sql locked. rewrite Hok.
    rewrite ReadImpl_run. cbv zeta.
    cbn [with_data record w_d w_trace SetId Id rd_id]. fold locked.
    rewrite Hgone. split; reflexivity.
Qed.

Lemma create_outcomes_hstore :
  let sql := create_statement "hstore" (Some "app") None in
  resourcePostgreSQLExtensionCreate (Examples.server MoreExamples.read_only)
    Examples.to_create
  = (Some (Wrapf "Error creating extension: {{err}}" (DriverError "read-only transaction")),
     record EvUnlock (record (EvExec sql) (record EvLock Examples.to_create)))
  /\ (exists log,
        emits (resourcePostgreSQLExtensionCreate (Examples.server Examples.healthy))
          Examples.to_create
          (EvLock :: EvExec sql :: EvQueryRow queryRead ["hstore"] :: log ++ [EvUnlock])
        /\ Forall quiet log)
  /\ (fst (resourcePostgreSQLExtensionCreate (Examples.server Examples.bare)
             Examples.to_create) = None
      /\ Id (w_d (snd (resourcePostgreSQLExtensionCreate (Examples.server Examples.bare)
                         Examples.to_create))) = EmptyString).
Proof.
  split; [|split].
  - exact (proj1 (create_outcomes (Examples.server MoreExamples.read_only)
                    Examples.to_create eq_refl)
             (DriverError "read-only transaction") eq_refl).
  - exact (proj1 (proj2 (create_outcomes (Examples.server Examples.healthy)
                           Examples.to_create eq_refl)) eq_refl).
  - exact (proj2 (proj2 (create_outcomes (Examples.server Examples.bare)
                           Examples.to_create eq_refl)) eq_refl eq_refl).
Defined.

(** ** How Delete ends *)

(** X9. On a server with extensions Delete takes the lock, sends the one
    DROP EXTENSION for the identity, and gives the lock back. It returns no
    error exactly when the server took the statement; then the identity is
    emptied and nothing else of the resource data changes. *)
Theorem delete_outcomes (c : Client) (w : World) :
  featureSupported c featureExtension = true ->
  let d := w_d w in
  let delete := resourcePostgreSQLExtensionDelete c in
  let sql := drop_statement (Id d) in
  emits delete w [EvLock; EvExec sql; EvUnlock]
  /\ (fst (delete w) = None <-> drvExec (DB c) (w_trace w ++ [EvLock]) sql = None)
  /\ (fst (delete w) = None -> w_d (snd (delete w)) = SetId EmptyString d)
  /\ (forall e, drvExec (DB c) (w_trace w ++ [EvLock]) sql = Some e ->
        fst (delete w) = Some (Wrapf "Error deleting extension: {{err}}" e)).
Proof.
  intros Hsup d delete sql. subst delete.
  split; [exact (Delete_emits c w Hsup)|].
  rewrite (Delete_run c w Hsup). cbv zeta. cbn [record w_trace]. fold d sql.
  destruct (drvExec _ _ _) as [e|]; cbn [fst snd record with_data w_d].
  - split; [split; discriminate|]. split; [discriminate|].
    intros e' H. injection H as <-. reflexivity.
  - split; [split; reflexivity|]. split; [reflexivity|]. discriminate.
Qed.

Lemma delete_outcomes_hstore :
  let c := Examples.server Examples.healthy in
  let w := Examples.unchanged in
  let sql := drop_statement "hstore" in
  emits (resourcePostgreSQLExtensionDelete c) w [EvLock; EvExec sql; EvUnlock]
  /\ fst (resourcePostgreSQLExtensionDelete c w) = None
  /\ w_d (snd (resourcePostgreSQLExtensionDelete c w)) = SetId EmptyString (w_d w)
  /\ fst (resourcePostgreSQLExtensionDelete (Examples.server Examples.refusing) w)
     = Some (Wrapf "Error deleting extension: {{err}}" (DriverError "permission denied")).
Proof.
  destruct (delete_outcomes (Examples.server Examples.healthy) Examples.unchanged eq_refl)
    as (Htrace & Hiff & Hid & _).
  destruct (delete_outcomes (Examples.server Examples.refusing) Examples.unchanged eq_refl)
    as (_ & _ & _ & Herr).
  split; [exact Htrace|]. split; [exact (proj2 Hiff eq_refl)|].
  split; [exact (Hid (proj2 Hiff eq_refl))|].
  exact (Herr (DriverError "permission denied") eq_refl).
Defined.

(** ** How Read speaks *)

(** X10. On a server with extensions Read takes the lock shared, sends the
    one full read with the identity as its parameter, writes a warning to
    the log when (and only when) the read reported no rows, naming the
    identity it asked for, and gives the lock back. *)
Theorem read_warns_when_gone (c : Client) (w : World) :
  featureSupported c featureExtension = true ->
  let id' := Id (w_d w) in
  let row := drvQueryRow (DB c) (w_trace w ++ [EvRLock]) queryRead [id'] in
  let gone := match snd (Scan3 row) with
              | Some e => is_ErrNoRows e
              | None => false
              end in
  emits (resourcePostgreSQLExtensionRead c) w
    ([EvRLock; EvQueryRow queryRead [id']]
     ++ (if gone
         then [EvLog ("[WARN] PostgreSQL extension (" +:+ id' +:+ ") not found")]
         else [])
     ++ [EvRUnlock]).
Proof.
  intros Hsup id' row gone. subst gone. unfold emits.
  rewrite (Read_run c w Hsup). cbv zeta. rewrite ReadImpl_run. cbv zeta.
  cbn [record w_d w_trace]. fold id' row.
  destruct (Scan3 row) as [[[a b] v] [e|]]; cbn [snd];
    [destruct (is_ErrNoRows e)|];
    cbn [fst snd record with_data w_trace];
    repeat first [rewrite <- app_assoc | progress cbn [app]]; reflexivity.
Qed.

Lemma read_warns_when_gone_hstore :
  emits (resourcePostgreSQLExtensionRead (Examples.server Examples.bare)) Examples.unchanged
    [EvRLock; EvQueryRow queryRead ["hstore"];
     EvLog "[WARN] PostgreSQL extension (hstore) not found"; EvRUnlock]
  /\ emits (resourcePostgreSQLExtensionRead (Examples.server Examples.healthy))
       Examples.unchanged
       [EvRLock; EvQueryRow queryRead ["hstore"]; EvRUnlock].
Proof.
  split.
  - exact (read_warns_when_gone (Examples.server Examples.bare) Examples.unchanged eq_refl).
  - exact (read_warns_when_gone (Examples.server Examples.healthy)
             Examples.unchanged eq_refl).
Defined.

(** ** More on Update *)

(** X11. On a server with extensions, when the schema is to change to a
    schema that is not the empty string and the server refuses the
    relocation, Update hands back the wrapped error of the relocation and
    has sent nothing else: the version sub-step is not tried, whether the
    version is to change or not, and the catalog is not read. *)
Theorem update_relocation_refused (c : Client) (w : World) (e : error) :
  featureSupported c featureExtension = true ->
  let d := w_d w in
  let relocate := relocate_statement (Id d) (snd (GetChange extSchemaAttr d)) in
  HasChange extSchemaAttr d = true ->
  snd (GetChange extSchemaAttr d) <> EmptyString ->
  drvExec (DB c) (w_trace w ++ [EvLock]) relocate = Some e ->
  resourcePostgreSQLExtensionUpdate c w
  = (Some (Wrapf "Error updating extension SCHEMA: {{err}}" e),
     record EvUnlock (record (EvExec relocate) (record EvLock w))).
Proof.
  intros Hsup d relocate Hc Hn He.
  rewrite (Update_run c w Hsup). cbv zeta.
  rewrite (setExtSchema_sent (DB c) (record EvLock w) Hc Hn). cbv zeta.
  cbn [fst snd record w_d w_trace]. fold d relocate. rewrite He. reflexivity.
Qed.

Lemma update_relocation_refused_hstore :
  let w := Examples.to_move_and_upgrade in
  let relocate := relocate_statement "hstore" "app" in
  resourcePostgreSQLExtensionUpdate (Examples.server Examples.refusing) w
  = (Some (Wrapf "Error updating extension SCHEMA: {{err}}"
             (DriverError "permission denied")),
     record EvUnlock (record (EvExec relocate) (record EvLock w))).
Proof.
  apply (update_relocation_refused (Examples.server Examples.refusing)
           Examples.to_move_and_upgrade (DriverError "permission denied") eq_refl).
  - reflexivity.
  - discriminate.
  - reflexivity.
Defined.

(** X12. On a server with extensions, an Update in which only the schema
    is to change, to a schema that is not the empty string, and which the
    server takes, sends exactly one statement to execute, the relocation,
    then reads the catalog under the identity, and returns what that read
    returns. *)
Theorem update_schema_only (c : Client) (w : World) :
  featureSupported c featureExtension = true ->
  let d := w_d w in
  let update := resourcePostgreSQLExtensionUpdate c in
  let relocate := relocate_statement (Id d) (snd (GetChange extSchemaAttr d)) in
  HasChange extSchemaAttr d = true ->
  snd (GetChange extSchemaAttr d) <> EmptyString ->
  HasChange extVersionAttr d = false ->
  drvExec (DB c) (w_trace w ++ [EvLock]) relocate = None ->
  (exists log,
      emits update w
        (EvLock :: EvExec relocate :: EvQueryRow queryRead [Id d] :: log ++ [EvUnlock])
      /\ Forall quiet log)
  /\ fst (update w)
     = fst (resourcePostgreSQLExtensionReadImpl c
              (record (EvExec relocate) (record EvLock w))).
Proof.
  intros Hsup d update relocate Hcs Hn Hcv Hok. subst update. unfold emits.
  rewrite (Update_run c w Hsup). cbv zeta.
  rewrite (setExtSchema_sent (DB c) (record EvLock w) Hcs Hn). cbv zeta.
  cbn [fst snd record w_d w_trace]. fold d relocate. rewrite Hok.
  cbn [fmap option_fmap option_map].
  rewrite (setExtVersion_skipped (DB c) (record (EvExec relocate) (record EvLock w)) Hcv).
  cbn [fst snd]. split; [|reflexivity].
  destruct (ReadImpl_emits c (record (EvExec relocate) (record EvLock w)))
    as (log & E & F).
  exists log. split; [|exact F].
  unfold emits in E. cbn [record w_d w_trace] in *. fold d in E. rewrite E.
  repeat first [rewrite <- app_assoc | progress cbn [app]]. reflexivity.
Qed.

Lemma update_schema_only_hstore :
  let update := resourcePostgreSQLExtensionUpdate (Examples.server Examples.healthy) in
  let relocate := relocate_statement "hstore" "app" in
  (exists log,
      emits update MoreExamples.to_move
        (EvLock :: EvExec relocate :: EvQueryRow queryRead ["hstore"] :: log ++ [EvUnlock])
      /\ Forall quiet log)
  /\ fst (update MoreExamples.to_move) = None.
Proof.
  apply (update_schema_only (Examples.server Examples.healthy) MoreExamples.to_move eq_refl).
  - reflexivity.
  - discriminate.
  - reflexivity.
  - reflexivity.
Defined.

Lemma setExtSchema_depends (db : Driver) (w w' : World) :
  w_trace w = w_trace w' ->
  Id (w_d w) = Id (w_d w') ->
  GetChange extSchemaAttr (w_d w) = GetChange extSchemaAttr (w_d w') ->
  fst (setExtSchema db w) = fst (setExtSchema db w')
  /\ w_trace (snd (setExtSchema db w)) = w_trace (snd (setExtSchema db w')).
Proof.
  intros Ht Hi Hg. rewrite !setExtSchema_run. cbv zeta.
  unfold HasChange. rewrite <- Hg, <- Hi, <- Ht.
  destruct (GetChange extSchemaAttr (w_d w)) as [o n]. cbn [snd].
  destruct (negb _); [auto|]. destruct (String.eqb n EmptyString); [auto|].
  cbn [fst snd record w_trace]. rewrite <- Ht. auto.
Qed.

Lemma setExtVersion_depends (db : Driver) (w w' : World) :
  w_trace w = w_trace w' ->
  Id (w_d w) = Id (w_d w') ->
  GetChange extVersionAttr (w_d w) = GetChange extVersionAttr (w_d w') ->
  fst (setExtVersion db w) = fst (setExtVersion db w')
  /\ w_trace (snd (setExtVersion db w)) = w_trace (snd (setExtVersion db w')).
Proof.
  intros Ht Hi Hg. rewrite !setExtVersion_run. cbv zeta.
  unfold HasChange. rewrite <- Hg, <- Hi, <- Ht.
  destruct (GetChange extVersionAttr (w_d w)) as [o n]. cbn [snd].
  destruct (negb _); [auto|].
  cbn [fst snd record w_trace]. rewrite <- Ht. auto.
Qed.

(** Update looks at the identity and at the changes of schema and version,
    and at nothing else of the resource data. *)
Lemma Update_depends (c : Client) (w w' : World) :
  w_trace w = w_trace w' ->
  Id (w_d w) = Id (w_d w') ->
  GetChange extSchemaAttr (w_d w) = GetChange extSchemaAttr (w_d w') ->
  GetChange extVersionAttr (w_d w) = GetChange extVersionAttr (w_d w') ->
  fst (resourcePostgreSQLExtensionUpdate c w) = fst (resourcePostgreSQLExtensionUpdate c w')
  /\ w_trace (snd (resourcePostgreSQLExtensionUpdate c w))
     = w_trace (snd (resourcePostgreSQLExtensionUpdate c w')).
Proof.
  intros Ht Hi Hs Hv.
  destruct (featureSupported c featureExtension) eqn:Hsup.
  2:{ rewrite !(Update_gated c _ Hsup). auto. }
  rewrite !(Update_run c _ Hsup). cbv zeta.
  destruct (setExtSchema_depends (DB c) (record EvLock w) (record EvLock w'))
    as [Hr1 Ht1]; [cbn; rewrite Ht; reflexivity|exact Hi|exact Hs|].
  destruct (setExtSchema_emits (DB c) (record EvLock w)) as (_ & _ & _ & Hd1).
  destruct (setExtSchema_emits (DB c) (record EvLock w')) as (_ & _ & _ & Hd1').
  cbn [record w_d] in Hd1, Hd1'.
  rewrite <- Hr1.
  destruct (fst (setExtSchema (DB c) (record EvLock w))) as [e1|].
  { cbn [fst snd record w_trace]. rewrite Ht1. auto. }
  set (s1 := snd (setExtSchema (DB c) (record EvLock w))) in *.
  set (s1' := snd (setExtSchema (DB c) (record EvLock w'))) in *.
  destruct (setExtVersion_depends (DB c) s1 s1') as [Hr2 Ht2];
    [exact Ht1|rewrite Hd1, Hd1'; exact Hi|rewrite Hd1, Hd1'; exact Hv|].
  destruct (setExtVersion_emits (DB c) s1) as (_ & _ & _ & Hd2).
  destruct (setExtVersion_emits (DB c) s1') as (_ & _ & _ & Hd2').
  rewrite <- Hr2.
  destruct (fst (setExtVersion (DB c) s1)) as [e2|].
  { cbn [fst snd record w_trace]. rewrite Ht2. auto. }
  destruct (ReadImpl_depends c (snd (setExtVersion (DB c) s1))
              (snd (setExtVersion (DB c) s1'))) as [Hr3 Ht3];
    [rewrite Hd2, Hd2', Hd1, Hd1'; exact Hi|exact Ht2|].
  cbn [fst snd record w_trace]. rewrite Hr3, Ht3. auto.
Qed.

Lemma force_new_is_name (key : string) (entry : schema.Schema) :
  schema.Schema_ resourcePostgreSQLExtension !! key = Some entry ->
  schema.ForceNew entry = true ->
  key = extNameAttr.
Proof.
  unfold resourcePostgreSQLExtension. cbn [schema.Schema_]. intros Hl Hf.
  destruct (decide (extNameAttr = key)) as [<-|Hn]; [reflexivity|exfalso].
  rewrite lookup_insert_ne in Hl by exact Hn.
  destruct (decide (extSchemaAttr = key)) as [<-|Hs].
  { rewrite lookup_insert_eq in Hl. injection Hl as <-. discriminate Hf. }
  rewrite lookup_insert_ne in Hl by exact Hs.
  destruct (decide (extVersionAttr = key)) as [<-|Hv].
  { rewrite lookup_insert_eq in Hl. injection Hl as <-. discriminate Hf. }
  rewrite lookup_insert_ne in Hl by exact Hv.
  rewrite lookup_empty in Hl. discriminate Hl.
Qed.

(** X13. Update cannot rename: whatever values, last-known and planned, an
    attribute that the descriptor marks ForceNew is given, Update returns
    the same and does the same to the outside world, on any server. *)
Theorem update_ignores_force_new
    (c : Client) (w : World) (key : string) (entry : schema.Schema) (old new : string) :
  schema.Schema_ resourcePostgreSQLExtension !! key = Some entry ->
  schema.ForceNew entry = true ->
  let update := resourcePostgreSQLExtensionUpdate c in
  let w' := with_data (with_attr key old new (w_d w)) w in
  fst (update w') = fst (update w)
  /\ w_trace (snd (update w')) = w_trace (snd (update w)).
Proof.
  intros Hl Hf update w'. subst update w'.
  rewrite (force_new_is_name key entry Hl Hf).
  apply Update_depends; cbn [with_data w_d w_trace]; try reflexivity.
  - unfold GetChange, with_attr. cbn [rd_state rd_planned].
    rewrite !lookup_insert_ne by discriminate. reflexivity.
  - unfold GetChange, with_attr. cbn [rd_state rd_planned].
    rewrite !lookup_insert_ne by discriminate. reflexivity.
Qed.

Lemma update_ignores_force_new_renamed :
  let update := resourcePostgreSQLExtensionUpdate (Examples.server Examples.healthy) in
  let w := Examples.to_move_and_upgrade in
  let w' := with_data (with_attr extNameAttr "hstore" "ltree" (w_d w)) w in
  fst (update w') = fst (update w)
  /\ w_trace (snd (update w')) = w_trace (snd (update w)).
Proof.
  exact (update_ignores_force_new (Examples.server Examples.healthy)
           Examples.to_move_and_upgrade extNameAttr
           {| schema.Type_ := schema.TypeString;
              schema.Required := true;
              schema.Optional := false;
              schema.Computed := false;
              schema.ForceNew := true;
              schema.Description := EmptyString |}
           "hstore" "ltree" eq_refl eq_refl).
Defined.

(** ** Round trips to the server *)








(** All the ways a run of Update can go. *)
Lemma Update_trace (c : Client) (w : World) :
  featureSupported c featureExtension = true ->
  let d := w_d w in
  let relocate := relocate_statement (Id d) (snd (GetChange extSchemaAttr d)) in
  let reversion := reversion_statement (Id d) (planned_version d) in
  exists evs_s evs_v evs_r,
    emits (resourcePostgreSQLExtensionUpdate c) w
      (EvLock :: evs_s ++ evs_v ++ evs_r ++ [EvUnlock])
    /\ (evs_s = [] \/ evs_s = [EvExec relocate])
    /\ (evs_v = [] \/ evs_v = [EvExec reversion])
    /\ (evs_r = []
        \/ exists log, evs_r = EvQueryRow queryRead [Id d] :: log /\ Forall quiet log).
Proof.
  intros Hsup d relocate reversion.
  unfold emits. rewrite (Update_run c w Hsup). cbv zeta.
  destruct (setExtSchema_emits (DB c) (record EvLock w)) as (evs_s & Es & Hs & Ds).
  unfold emits in Es. cbn [record w_d w_trace] in Es, Hs, Ds. fold d relocate in Hs.
  destruct (fst (setExtSchema (DB c) (record EvLock w))) as [e1|].
  { exists evs_s, [], []. cbn [snd record w_trace]. rewrite Es.
    rewrite <- !app_assoc.
    split; [reflexivity|]. split; [exact Hs|]. split; left; reflexivity. }
  destruct (setExtVersion_emits (DB c) (snd (setExtSchema (DB c) (record EvLock w))))
    as (evs_v & Ev & Hv & Dv).
  unfold emits in Ev. rewrite Ds in Hv. fold d in Hv.
  change (if String.eqb (snd (GetChange extVersionAttr d)) EmptyString
          then None else Some (snd (GetChange extVersionAttr d)))
    with (planned_version d) in Hv.
  fold reversion in Hv.
  destruct (fst (setExtVersion (DB c) _)) as [e2|].
  { exists evs_s, evs_v, []. cbn [snd record w_trace]. rewrite Ev, Es.
    rewrite <- !app_assoc.
    split; [reflexivity|]. split; [exact Hs|]. split; [exact Hv|left; reflexivity]. }
  destruct (ReadImpl_emits c (snd (setExtVersion (DB c)
              (snd (setExtSchema (DB c) (record EvLock w)))))) as (log & Er & Fr).
  unfold emits in Er. rewrite Dv, Ds in Er. fold d in Er.
  eexists evs_s, evs_v, (_ :: log). cbn [snd record w_trace]. rewrite Er, Ev, Es.
  rewrite <- !app_assoc.
  split; [reflexivity|]. split; [exact Hs|]. split; [exact Hv|].
  right. exists log. split; [reflexivity|exact Fr].
Qed.



(** ** The ALTER and DROP statements, read back *)

Lemma scan_quoted_last (ident : string) :
  scan_quoted (QuoteIdentifier ident) = Some (truncate_nul ident, EmptyString).
Proof.
  rewrite <- (append_empty_r (QuoteIdentifier ident)).
  apply scan_quoted_QuoteIdentifier. reflexivity.
Qed.

Lemma parse_alter_relocate (name newSchema : string) :
  parse_alter (relocate_statement name newSchema)
  = Some (SetSchema (truncate_nul name) (truncate_nul newSchema)).
Proof.
  unfold parse_alter, relocate_statement.
  rewrite strip_prefix_append.
  rewrite scan_quoted_QuoteIdentifier by reflexivity.
  rewrite strip_prefix_append, scan_quoted_last. reflexivity.
Qed.

Lemma parse_alter_reversion (name : string) (newVersion : option string) :
  parse_alter (reversion_statement name newVersion)
  = Some (UpdateTo (truncate_nul name) (truncate_nul <$> newVersion)).
Proof.
  unfold parse_alter, reversion_statement.
  rewrite strip_prefix_append.
  rewrite scan_quoted_QuoteIdentifier by reflexivity.
  change (strip_prefix " SET SCHEMA " (" UPDATE" +:+ clause " TO " newVersion))
    with (@None string).
  rewrite strip_prefix_append.
  rewrite <- (append_empty_r (clause " TO " newVersion)).
  rewrite scan_clause_clause by reflexivity. reflexivity.
Qed.

Lemma parse_drop_statement (name : string) :
  parse_drop (drop_statement name) = Some (truncate_nul name).
Proof.
  unfold parse_drop, drop_statement.
  rewrite strip_prefix_append, scan_quoted_last. reflexivity.
Qed.

(** X15. Whatever characters the identity and the planned schema and
    version hold, every statement Update sends to execute reads back as
    one ALTER EXTENSION of that identity, either SET SCHEMA to the planned
    schema or UPDATE with the planned version (no TO clause when it is
    empty); and every statement Delete sends to execute reads back as one
    DROP EXTENSION of the identity, with nothing after it. *)
Theorem alter_and_drop_read_back (c : Client) (w : World) (evs : list Event) :
  (emits (resourcePostgreSQLExtensionUpdate c) w evs -> Forall (alters_for (w_d w)) evs)
  /\ (emits (resourcePostgreSQLExtensionDelete c) w evs -> Forall (drops_for (w_d w)) evs).
Proof.
  split; intros Hev; destruct (featureSupported c featureExtension) eqn:Hsup.
  - destruct (Update_trace c w Hsup) as (evs_s & evs_v & evs_r & E & Hs & Hv & Hr).
    rewrite (emits_unique _ _ _ _ Hev E).
    constructor; [exact I|]. repeat apply Forall_app_2.
    + destruct Hs as [-> | ->]; [constructor|].
      constructor; [|constructor]. left. apply parse_alter_relocate.
    + destruct Hv as [-> | ->]; [constructor|].
      constructor; [|constructor]. right. apply parse_alter_reversion.
    + destruct Hr as [-> | (log & -> & F)]; [constructor|].
      constructor; [exact I|]. eapply Forall_impl; [exact F|].
      intros [] [Hsql _]; try exact I. discriminate Hsql.
    + constructor; [exact I|constructor].
  - assert (E : emits (resourcePostgreSQLExtensionUpdate c) w []).
    { apply emits_nil. rewrite (Update_gated c w Hsup). reflexivity. }
    rewrite (emits_unique _ _ _ _ Hev E). constructor.
  - rewrite (emits_unique _ _ _ _ Hev (Delete_emits c w Hsup)).
    constructor; [exact I|]. constructor; [apply parse_drop_statement|].
    constructor; [exact I|constructor].
  - assert (E : emits (resourcePostgreSQLExtensionDelete c) w []).
    { apply emits_nil. rewrite (Delete_gated c w Hsup). reflexivity. }
    rewrite (emits_unique _ _ _ _ Hev E). constructor.
Qed.

Lemma alter_and_drop_read_back_hostile :
  let hostile := "x" +:+ dquote +:+ "; DROP TABLE users; --" in
  let c := Examples.server Examples.healthy in
  let w := with_data (SetId hostile (w_d Examples.to_empty_version))
             Examples.to_empty_version in
  Forall (alters_for (w_d w))
    [EvLock; EvExec (reversion_statement hostile None);
     EvQueryRow queryRead [hostile]; EvUnlock]
  /\ Forall (drops_for (w_d w)) [EvLock; EvExec (drop_statement hostile); EvUnlock].
Proof.
  intros hostile c w. split.
  - exact (proj1 (alter_and_drop_read_back c w _) eq_refl).
  - exact (proj2 (alter_and_drop_read_back c w _) eq_refl).
Defined.

(** ** What Create does not look at *)

(** X16. Create looks at the plan only: called with any other identity
    and any other last-known state, it returns the same and does the same
    to the outside world, on any server. *)
Theorem create_reads_the_plan_only
    (c : Client) (w : World) (id' : string) (state : gmap string string) :
  let create := resourcePostgreSQLExtensionCreate c in
  let w' := with_data {| rd_id := id'; rd_state := state;
                         rd_planned := rd_planned (w_d w);
                         rd_set := rd_set (w_d w) |} w in
  fst (create w') = fst (create w)
  /\ w_trace (snd (create w')) = w_trace (snd (create w)).
Proof.
  intros create w'. subst create w'.
  destruct (featureSupported c featureExtension) eqn:Hsup.
  - apply Create_depends; [exact Hsup|reflexivity..].
  - rewrite !(Create_gated c _ Hsup). split; reflexivity.
Qed.
